(** * greeting8: the GraphQL greeting service, shallowly embedded

    The repository holds two near-identical Go programs:
    - variant A ([src/main.go]): the field [greeting] resolves to a string;
    - variant B (the second source file): it resolves to a
      [GreetingResponse] with a text and a string of flower emoji.

    Each program is one [main] function.  Its parts are embedded below in
    the order in which they appear in the source: the catalogs, the
    resolver closure, the schema literals, the port selection, the
    command-line loop and the shutdown path. *)

From Stdlib Require Import ZArith Lia DecimalString DecimalZ.
From stdpp Require Import base option list strings gmap.

Local Open Scope Z_scope.

(** ** Go's [int] *)

Module GoInt.

(** [int] is 64 bits wide on the platforms the service is built for. *)
Definition width : Z := 64.
Definition min_int : Z := - 2 ^ (width - 1).
Definition max_int : Z := 2 ^ (width - 1) - 1.

Definition in_range (z : Z) : Prop := min_int <= z <= max_int.

(** Two's complement wrap-around of an exact result. *)
Definition wrap (z : Z) : Z :=
  (z + 2 ^ (width - 1)) mod 2 ^ width - 2 ^ (width - 1).

Definition sub (a b : Z) : Z := wrap (a - b).

End GoInt.

(** ** The [fmt] verbs the program uses *)

Module Fmt.

(** [%d] on an [int]: decimal digits, a leading minus sign when negative. *)
Definition FormatInt (z : Z) : string :=
  NilZero.string_of_int (Z.to_int z).

(** [fmt.Sprintf] with a format of the shape [pre%dpost]. *)
Definition Sprintf_d (pre post : string) (z : Z) : string :=
  pre +:+ FormatInt z +:+ post.

(** [fmt.Sprintf] with a format of the shape [pre%spost]. *)
Definition Sprintf_s (pre post : string) (s : string) : string :=
  pre +:+ s +:+ post.

End Fmt.

(** ** The catalogs (package-level variables) *)

(** Index 0 corresponds to ID 1, and so on. *)
Definition greetings : list string :=
  [ "С 8 Марта! Пусть каждый день дарит улыбки, радость и вдохновение!";
    "Поздравляю с Международным женским днём! Желаю весеннего настроения, любви и счастья!";
    "С 8 Марта! Оставайтесь такой же прекрасной, нежной и удивительной!";
    "Пусть в этот день сбудутся самые заветные мечты. С праздником весны!";
    "С 8 Марта! Желаю море цветов, тепла, уюта и приятных сюрпризов!";
    "Поздравляю с днём очарования! Будьте счастливы, любимы и неповторимы!";
    "С Международным женским днём! Пусть весна расцветает в душе, а сердце согревает любовь.";
    "С 8 Марта! Желаю, чтобы каждый день был таким же ярким и прекрасным, как первые весенние цветы.";
    "Поздравляю с праздником! Пусть жизнь играет яркими красками, а рядом будут только верные и любящие люди.";
    "С 8 Марта! Желаю женского счастья, крепкого здоровья и исполнения желаний!" ]%string.

(** One string of flower emoji per ID (variant B only). *)
Definition flowers : list string :=
  [ "🌷🌹🌸"; "🌼🌻🌺"; "🌷🌷🌷"; "🌸🌸🌸"; "🌹🌹🌹";
    "🌺🌺🌺"; "🌻🌻🌻"; "🌼🌼🌼"; "🌷🌹🌺"; "🌸🌼🌻" ]%string.

(** ** Dynamic values

    What an [interface{}] holds in this program: the argument values the
    engine hands to the resolver, and what the resolver hands back. *)

(** [GreetingResponse] (variant B): the answer with its text and flowers. *)
Record GreetingResponse : Type := {
  Text : string;
  Flowers : string
}.

Inductive value : Type :=
| VNil                                   (* the nil interface *)
| VBool (b : bool)
| VInt (z : Z)                           (* dynamic type int *)
| VInt32 (z : Z)
| VInt64 (z : Z)
| VFloat64 (bits : Z)                    (* the IEEE 754 bit pattern *)
| VString (s : string)
| VGreetingResponse (r : GreetingResponse).

(** An [error] built by [fmt.Errorf] is its message. *)
Definition error : Type := string.

(** The comma-ok type assertion [v.(int)]: the zero value and [false]
    unless the dynamic type is exactly [int]. *)
Definition assert_int (v : value) : Z * bool :=
  match v with
  | VInt z => (z, true)
  | _ => (0, false)
  end.

(** Indexing a [map[string]interface{}]: a missing key yields nil. *)
Definition map_index (m : gmap string value) (k : string) : value :=
  default VNil (m !! k).

(** [graphql.ResolveParams]; the resolver reads [Args] only. *)
Record ResolveParams : Type := {
  Args : gmap string value
}.

(** ** The world a resolver runs in

    The catalogs are package-level [var]s, so they live in the state; every
    read of them is recorded, in order. *)

Inductive catalog : Type := Greetings | FlowersCat.

Inductive access : Type :=
| ReadLen (c : catalog)                  (* len(c) *)
| ReadIndex (c : catalog) (i : Z).       (* c[i] *)

Record world : Type := {
  w_greetings : list string;
  w_flowers : list string;
  w_trace : list access
}.

Definition slice_of (c : catalog) (w : world) : list string :=
  match c with
  | Greetings => w_greetings w
  | FlowersCat => w_flowers w
  end.

Definition record_access (a : access) (w : world) : world :=
  {| w_greetings := w_greetings w;
     w_flowers := w_flowers w;
     w_trace := w_trace w ++ [a] |}.

(** The process starts with the catalogs of the source and nothing read. *)
Definition initial_world : world :=
  {| w_greetings := greetings; w_flowers := flowers; w_trace := [] |}.

(** A run-time panic: index out of range [i] with length [n]. *)
Inductive panic : Type :=
| IndexOutOfRange (i : Z) (n : Z).

Inductive outcome (A : Type) : Type :=
| Returns (a : A)
| Panics (p : panic).
Arguments Returns {A} a.
Arguments Panics {A} p.

(** Computations over the world that may panic. *)
Definition Go (A : Type) : Type := world -> outcome A * world.

#[global] Instance Go_ret : MRet Go := fun A a w => (Returns a, w).

#[global] Instance Go_bind : MBind Go := fun A B k m w =>
  match m w with
  | (Returns a, w') => k a w'
  | (Panics p, w') => (Panics p, w')
  end.

(** [len(c)] *)
Definition len (c : catalog) : Go Z := fun w =>
  (Returns (Z.of_nat (length (slice_of c w))), record_access (ReadLen c) w).

(** [c[i]]: panics unless [0 <= i < len(c)]. *)
Definition index (c : catalog) (i : Z) : Go string := fun w =>
  let w' := record_access (ReadIndex c i) w in
  if (0 <=? i) && (i <? Z.of_nat (length (slice_of c w))) then
    match slice_of c w !! Z.to_nat i with
    | Some s => (Returns s, w')
    | None => (Panics (IndexOutOfRange i (Z.of_nat (length (slice_of c w)))), w')
    end
  else (Panics (IndexOutOfRange i (Z.of_nat (length (slice_of c w)))), w').

(** What a resolver returns: [(interface{}, error)]. *)
Definition resolved : Type := value * option error.

(** ** The part of [graphql-go] the schema literals use *)

Module graphql.

(** Output and input types.  [String] and [Int] are the library's nullable
    scalars; [NewNonNull] wraps a type into its non-null form. *)
Inductive Type_ : Type :=
| Int
| String
| NewNonNull (ofType : Type_)
| NewObject (Name : string) (Fields : list (string * Field))
with Field : Type :=
| mkField (Type' : Type_)
          (Args' : list (string * Type_))
          (Resolve' : option (ResolveParams -> Go resolved)).

Definition Type' (f : Field) : Type_ := let (t, _, _) := f in t.
Definition Args' (f : Field) : list (string * Type_) := let (_, a, _) := f in a.
Definition Resolve' (f : Field) : option (ResolveParams -> Go resolved) :=
  let (_, _, r) := f in r.

(** A type is non-null exactly when it is a [NewNonNull] wrapper. *)
Definition is_non_null (t : Type_) : bool :=
  match t with
  | NewNonNull _ => true
  | _ => false
  end.

(** The field named [name] of an object type ([Fields] is a Go map). *)
Definition field_of (t : Type_) (name : string) : option Field :=
  match t with
  | NewObject _ fs => snd <$> List.find (fun kv => String.eqb (fst kv) name) fs
  | _ => None
  end.

(** The argument named [name] of a field. *)
Definition arg_of (f : Field) (name : string) : option Type_ :=
  snd <$> List.find (fun kv => String.eqb (fst kv) name) (Args' f).

(** The type in the schema language: a name, [!] after a non-null type. *)
Fixpoint type_name (t : Type_) : string :=
  match t with
  | Int => "Int"
  | String => "String"
  | NewNonNull t' => type_name t' +:+ "!"
  | NewObject n _ => n
  end.

(** [graphql.SchemaConfig]: only [Query] is set. *)
Record SchemaConfig : Type := { Query : Type_ }.

End graphql.

(** ** The process and its surroundings *)

(** [os.Getenv]: the empty string when the variable is not set. *)
Definition Getenv (env : gmap string string) (key : string) : string :=
  default EmptyString (env !! key).

Module time.
(** A [Duration] counts nanoseconds. *)
Definition Nanosecond : Z := 1.
Definition Second : Z := 1000000000 * Nanosecond.
End time.

(** The double quote and the line feed, for building texts. *)
Definition dquote : string := String (Ascii.ascii_of_nat 34) EmptyString.
Definition newline : string := String (Ascii.ascii_of_nat 10) EmptyString.

(** What the foreground of [main] does to the outside, in order.  The
    listener goroutine runs beside it; of that goroutine only its start, with
    the address it serves, is recorded.  [log.Fatalf] is a [Log] followed by
    the exit status 1. *)
Inductive event : Type :=
| Stdout (text : string)                        (* fmt.Print, Println, Printf *)
| Log (text : string)                           (* log.Printf, log.Fatalf *)
| GoListenAndServe (Addr : string)              (* the listener goroutine *)
| HttpPost (url contentType body : string)      (* http.Post *)
| ServerShutdown (timeout : Z).                 (* server.Shutdown(ctx) *)

Definition Println (s : string) : event := Stdout (s +:+ newline).

(** What [fmt.Scanln(&input)] hands to one turn of the loop. *)
Inductive scanned : Type :=
| ScanError
| Scanned (input : string).

(** How one turn of the loop ends. *)
Inductive control : Type := Continue | Break.

(** Where the process stands once the given input is used up. *)
Inductive status : Type :=
| AwaitingInput                 (* in a call of Scanln that has not returned *)
| Exited (code : Z)             (* main returned (0) or os.Exit(code) *)
| Spinning.                     (* closed input: every Scanln fails at once, the
                                   loop prints prompt and error without end *)

(** What comes back from [http.Post] followed by the JSON decoding. *)
Inductive reply (R : Type) : Type :=
| PostFailed (err : error)
| DecodeFailed (err : error)
| Decoded (result : R).
Arguments PostFailed {R} err.
Arguments DecodeFailed {R} err.
Arguments Decoded {R} result.

(** Is this event a request to the gateway? *)
Definition is_request (e : event) : bool :=
  match e with
  | HttpPost _ _ _ => true
  | _ => false
  end.

(** ** Scanning: the parts of [fmt] and [strconv] behind [Sscan] and [Scanln] *)

Module Scan.

(** The code of a byte. *)
Definition code (a : Ascii.ascii) : Z := Z.of_N (Ascii.N_of_ascii a).

(** Is the byte one of the characters of [set]?  ([strings.IndexRune] on
    the ASCII sets the scanner uses.) *)
Fixpoint in_set (set : string) (a : Ascii.ascii) : bool :=
  match set with
  | EmptyString => false
  | String b set' => Ascii.eqb a b || in_set set' a
  end.

(** [isSpace] on an ASCII character: U+0009 to U+000D and U+0020. *)
Definition is_space (c : Z) : bool :=
  ((9 <=? c) && (c <=? 13)) || (c =? 32).

(** The width in bytes of the space rune the text starts with, 0 when it
    starts with none.  [isSpace] holds of U+0009..U+000D, U+0020, U+0085,
    U+00A0, U+1680, U+2000..U+200A, U+2028, U+2029, U+202F, U+205F and
    U+3000; the ones past ASCII are met here in their UTF-8 encoding. *)
Definition space_width (s : string) : nat :=
  match s with
  | EmptyString => 0%nat
  | String a s1 =>
      let c := code a in
      if is_space c then 1%nat
      else
        match s1 with
        | EmptyString => 0%nat
        | String a1 s2 =>
            let c1 := code a1 in
            if (c =? 194) && ((c1 =? 133) || (c1 =? 160)) then 2%nat
            else
              match s2 with
              | EmptyString => 0%nat
              | String a2 _ =>
                  let c2 := code a2 in
                  if (c =? 225) && (c1 =? 154) && (c2 =? 128) then 3%nat
                  else if (c =? 226) && (c1 =? 128)
                          && (((128 <=? c2) && (c2 <=? 138))
                              || (c2 =? 168) || (c2 =? 169) || (c2 =? 175))
                  then 3%nat
                  else if (c =? 226) && (c1 =? 129) && (c2 =? 159) then 3%nat
                  else if (c =? 227) && (c1 =? 128) && (c2 =? 128) then 3%nat
                  else 0%nat
              end
        end
  end.

Fixpoint drop (n : nat) (s : string) : string :=
  match n, s with
  | S n', String _ s' => drop n' s'
  | _, _ => s
  end.

(** [SkipSpace] where a newline counts as a space ([Sscan]): drop leading
    space runes.  [fuel] bounds the number of runes dropped. *)
Fixpoint skip_spaces (fuel : nat) (s : string) : string :=
  match fuel with
  | O => s
  | S fuel' =>
      match space_width s with
      | O => s
      | w => skip_spaces fuel' (drop w s)
      end
  end.

(** [accept]: take the next character if it is in [set]. *)
Definition accept (set : string) (s : string) : string * string :=
  match s with
  | String a r =>
      if in_set set a then (String a EmptyString, r) else (EmptyString, s)
  | EmptyString => (EmptyString, s)
  end.

(** [for s.accept(digits) {}]: take characters as long as they are in
    [set]. *)
Fixpoint accept_all (set : string) (s : string) : string * string :=
  match s with
  | String a r =>
      if in_set set a then
        let '(tok, rest) := accept_all set r in (String a tok, rest)
      else (EmptyString, s)
  | EmptyString => (EmptyString, s)
  end.

Definition binaryDigits : string := "01".
Definition octalDigits : string := "01234567".
Definition decimalDigits : string := "0123456789".
Definition hexadecimalDigits : string := "0123456789aAbBcCdDeEfF".

(** [scanBasePrefix]: the prefix taken, the digits allowed after it, and
    whether a digit (the zero) was already found. *)
Definition scanBasePrefix (s : string) : string * string * bool * string :=
  match accept "0" s with
  | (EmptyString, _) => (EmptyString, decimalDigits +:+ "_", false, s)
  | (zero, r) =>
      match accept "bB" r with
      | (String b _, r') => (zero +:+ String b EmptyString, binaryDigits +:+ "_", true, r')
      | _ =>
          match accept "oO" r with
          | (String o _, r') =>
              (zero +:+ String o EmptyString, octalDigits +:+ "_", true, r')
          | _ =>
              match accept "xX" r with
              | (String x _, r') =>
                  (zero +:+ String x EmptyString, hexadecimalDigits +:+ "_", true, r')
              | _ => (zero, octalDigits +:+ "_", true, r)
              end
          end
      end
  end.

(** [scanNumber]: the digits of the token, or nothing when a first digit is
    required and missing. *)
Definition scanNumber (digits : string) (haveDigits : bool) (s : string)
  : option string :=
  if haveDigits then Some (fst (accept_all digits s))
  else
    match accept digits s with
    | (EmptyString, _) => None       (* EOF, or "expected integer" *)
    | _ => Some (fst (accept_all digits s))
    end.

(** [lower(c)]: the byte with bit 5 set. *)
Definition lower (c : Z) : Z := Z.lor c 32.

(** The value of a character as a digit, if it is a digit or a letter. *)
Definition digit_value (c : Z) : option Z :=
  if (48 <=? c) && (c <=? 57) then Some (c - 48)
  else if (97 <=? lower c) && (lower c <=? 122) then Some (lower c - 97 + 10)
  else None.

(** The loop of [strconv.ParseUint] with [base0] set: underscores are
    skipped (and reported), every other character must be a digit of the
    base.  The value is exact; the caller checks the range. *)
Fixpoint digits_value (base : Z) (s : string) (n : Z) (underscores : bool)
  : option (Z * bool) :=
  match s with
  | EmptyString => Some (n, underscores)
  | String a r =>
      let c := code a in
      if c =? 95 then digits_value base r n true
      else
        match digit_value c with
        | Some d =>
            if d <? base then digits_value base r (n * base + d) underscores
            else None
        | None => None
        end
  end.

(** [underscoreOK]: underscores only between digits, or between the base
    prefix and a digit. *)
Inductive saw : Type := SawStart | SawDigit | SawUnderscore | SawOther.

Fixpoint underscore_scan (hex : bool) (seen : saw) (s : string) : bool :=
  match s with
  | EmptyString =>
      match seen with SawUnderscore => false | _ => true end
  | String a r =>
      let c := code a in
      if ((48 <=? c) && (c <=? 57))
         || (hex && (97 <=? lower c) && (lower c <=? 102))
      then underscore_scan hex SawDigit r
      else if c =? 95 then
        match seen with
        | SawDigit => underscore_scan hex SawUnderscore r
        | _ => false
        end
      else
        match seen with
        | SawUnderscore => false
        | _ => underscore_scan hex SawOther r
        end
  end.

Definition underscoreOK (s : string) : bool :=
  let s := match s with
           | String a r => if in_set "-+" a then r else s
           | EmptyString => s
           end in
  match s with
  | String a0 (String a1 r) =>
      if (code a0 =? 48)
         && ((lower (code a1) =? 98) || (lower (code a1) =? 111)
             || (lower (code a1) =? 120))
      then underscore_scan (lower (code a1) =? 120) SawDigit r
      else underscore_scan false SawStart s
  | _ => underscore_scan false SawStart s
  end.

(** [strconv.ParseUint(s, 0, 64)]: nothing on a syntax error or a value
    past 2^64-1. *)
Definition ParseUint (s : string) : option Z :=
  match s with
  | EmptyString => None
  | String a0 r0 =>
      let '(base, body) :=
        if code a0 =? 48 then
          match r0 with
          | String a1 (String _ _ as r1) =>
              (* len(s) >= 3 *)
              if lower (code a1) =? 98 then (2, r1)
              else if lower (code a1) =? 111 then (8, r1)
              else if lower (code a1) =? 120 then (16, r1)
              else (8, r0)
          | _ => (8, r0)
          end
        else (10, s) in
      match digits_value base body 0 false with
      | None => None
      | Some (n, underscores) =>
          if 2 ^ 64 <=? n then None
          else if underscores && negb (underscoreOK s) then None
          else Some n
      end
  end.

(** [strconv.ParseInt(s, 0, 64)] *)
Definition ParseInt (s : string) : option Z :=
  match s with
  | EmptyString => None
  | String a r =>
      let '(neg, u) :=
        if code a =? 43 then (false, r)
        else if code a =? 45 then (true, r)
        else (false, s) in
      match ParseUint u with
      | None => None
      | Some un =>
          if neg then (if 2 ^ 63 <? un then None else Some (- un))
          else (if 2 ^ 63 <=? un then None else Some un)
      end
  end.

(** [scanInt] for the verb [%v] and 64 bits. *)
Definition scanInt (input : string) : option Z :=
  let s := skip_spaces (String.length input) input in
  match s with
  | EmptyString => None                                   (* EOF *)
  | _ =>
      let '(sign, s1) := accept "+-" s in
      let '(prefix, digits, haveDigits, s2) := scanBasePrefix s1 in
      match scanNumber digits haveDigits s2 with
      | None => None
      | Some body => ParseInt (sign +:+ prefix +:+ body)
      end
  end.

End Scan.

(** [fmt.Sscan(input, &id)] for an [id] of type [int]: the integer read, or
    nothing when the call returns an error.  What follows the number in
    [input] is not looked at. *)
Definition Sscan_int (input : string) : option Z := Scan.scanInt input.

(** ** [fmt.Scanln(&input)] on the characters of standard input

    Standard input is the text that has arrived so far, and it is either
    still open (more may come) or closed (end of file after that text).
    The model covers ASCII input: on a byte outside ASCII it says so and
    goes no further. *)

Inductive scan_call : Type :=
| Returned (result : scanned) (rest : string)   (* the call, and what is left *)
| Blocked                       (* the input is used up, the call waits *)
| Unmodelled.                   (* a byte outside ASCII *)

(** After the word: [doScan]'s check for the end of the line.  It reads up
    to the newline; a character that is no space is an error, and has been
    read. *)
Fixpoint scan_newline (closed : bool) (word : string) (s : string) : scan_call :=
  match s with
  | EmptyString => if closed then Returned (Scanned word) EmptyString else Blocked
  | String a r =>
      let c := Scan.code a in
      if c =? 10 then Returned (Scanned word) r
      else if Scan.is_space c then scan_newline closed word r
      else if 128 <=? c then Unmodelled
      else Returned ScanError r                 (* "expected newline" *)
  end.

(** The word: [token(true, notSpace)], the characters up to the next
    space. *)
Fixpoint scan_token (closed : bool) (word : string) (s : string) : scan_call :=
  match s with
  | EmptyString => if closed then Returned (Scanned word) EmptyString else Blocked
  | String a r =>
      let c := Scan.code a in
      if Scan.is_space c then scan_newline closed word s
      else if 128 <=? c then Unmodelled
      else scan_token closed (word +:+ String a EmptyString) r
  end.

(** The call: [SkipSpace] (where a newline is an error, and is read), then
    the word, then the end of the line.  At the end of a closed input the
    call fails at once. *)
Fixpoint Scanln (closed : bool) (s : string) : scan_call :=
  match s with
  | EmptyString => if closed then Returned ScanError EmptyString else Blocked
  | String a r =>
      let c := Scan.code a in
      if c =? 10 then Returned ScanError r      (* "unexpected newline" *)
      else if Scan.is_space c then Scanln closed r
      else if 128 <=? c then Unmodelled
      else scan_token closed EmptyString s
  end.

(** How the sequence of calls ends. *)
Inductive stdin_end : Type :=
| Waiting                       (* open input, used up: the next call waits *)
| EndOfFile                     (* closed input, used up: every further call fails *)
| NotASCII.

(** The results of the successive calls of [Scanln] on the input.  Every
    call on a non-empty input reads at least one character, so a fuel of
    the length of the input is enough. *)
Fixpoint scan_calls (fuel : nat) (closed : bool) (s : string)
  : list scanned * stdin_end :=
  match s with
  | EmptyString => ([], if closed then EndOfFile else Waiting)
  | _ =>
      match fuel with
      | O => ([], if closed then EndOfFile else Waiting)
      | S fuel' =>
          match Scanln closed s with
          | Returned result rest =>
              let '(results, e) := scan_calls fuel' closed rest in
              (result :: results, e)
          | Blocked => ([], Waiting)
          | Unmodelled => ([], NotASCII)
          end
      end
  end.

Definition stdin_lines (closed : bool) (s : string) : list scanned * stdin_end :=
  scan_calls (String.length s) closed s.

(** ** Port numbers as [net] reads them *)

Module Net.

(** The value of a text of decimal digits. *)
Fixpoint decimal_value (s : string) (n : Z) : option Z :=
  match s with
  | EmptyString => Some n
  | String a r =>
      let c := Scan.code a in
      if (48 <=? c) && (c <=? 57) then decimal_value r (10 * n + (c - 48))
      else None
  end.

(** The port number that [net] takes from a port text, for the texts this
    model covers: decimal digits, after an optional plus sign, with a value
    within 1..65535 (leading zeros do not count).  For every other text (a
    service name, an empty text or 0 where the system chooses the port, a
    number out of range) the model gives nothing and nothing is said. *)
Definition port_number (service : string) : option Z :=
  match service with
  | EmptyString => None
  | String a r =>
      let digits := if Scan.code a =? 43 then r else service in
      match digits with
      | EmptyString => None
      | _ =>
          match decimal_value digits 0 with
          | Some v => if (1 <=? v) && (v <=? 65535) then Some v else None
          | None => None
          end
      end
  end.

(** The port a server with the address [":" + port] listens on. *)
Definition listen_port (addr : string) : option Z :=
  match addr with
  | String a port => if Scan.code a =? 58 then port_number port else None
  | EmptyString => None
  end.

Fixpoint strip_prefix (pre s : string) : option string :=
  match pre, s with
  | EmptyString, _ => Some s
  | String a pre', String b s' =>
      if Ascii.eqb a b then strip_prefix pre' s' else None
  | String _ _, EmptyString => None
  end.

(** The port a request to [url] is sent to, for a URL of the form
    [http://localhost:<digits>/...]. *)
Definition dial_port (url : string) : option Z :=
  match strip_prefix "http://localhost:" url with
  | Some rest =>
      match Scan.accept_all Scan.decimalDigits rest with
      | (digits, String slash _) =>
          if Scan.code slash =? 47 then port_number digits else None
      | (digits, EmptyString) => port_number digits
      end
  | None => None
  end.

End Net.

(** What [server.ListenAndServe] returns; it never returns nil. *)
Inductive serve_error : Type :=
| ErrServerClosed                       (* http.ErrServerClosed *)
| ServeFailed (err : error).            (* anything else, a failed bind say *)

(** ** Variant A ([src/main.go]): the greeting is a string *)

Module A.

(** The [Resolve] closure of [greetingField]. *)
Definition Resolve (p : ResolveParams) : Go resolved :=
  let '(id, ok) := assert_int (map_index (Args p) "id") in
  if negb ok then
    mret (VNil, Some ("id должен быть целым числом" : error))
  else
    out_of_range ←
      (if id <? 1 then mret true
       else n ← len Greetings; mret (id >? n));
    if (out_of_range : bool) then
      mret (VNil, Some (Fmt.Sprintf_d "поздравление с ID " " не найдено" id))
    else
      (* greetings is indexed from 0, hence id-1 *)
      text ← index Greetings (GoInt.sub id 1);
      mret (VString text, None).

Definition greetingField : graphql.Field :=
  graphql.mkField
    graphql.String
    [("id"%string, graphql.NewNonNull graphql.Int)]
    (Some Resolve).

Definition rootQuery : graphql.Type_ :=
  graphql.NewObject "Query" [("greeting"%string, greetingField)].

Definition schemaConfig : graphql.SchemaConfig :=
  {| graphql.Query := rootQuery |}.

(** Step 3: the port, [8080] by default for a local run. *)
Definition port (env : gmap string string) : string :=
  let port := Getenv env "PORT" in
  if decide (port = EmptyString) then "8080"%string else port.

(** [server.Addr] *)
Definition Addr (port : string) : string := ":" +:+ port.

(** The body of the listener goroutine: two log lines, then the serving,
    which ends with [served]; any end but a closed server is fatal. *)
Definition listener (port : string) (served : serve_error)
  : list event * option Z :=
  let announce :=
    [ Log "GraphQL сервер запущен на http://localhost:8080";
      Log "GraphiQL интерфейс доступен по адресу http://localhost:8080" ] in
  match served with
  | ErrServerClosed => (announce, None)
  | ServeFailed err =>
      (announce ++ [Log ("ошибка запуска сервера: " +:+ err)], Some 1)
  end.

(** The anonymous struct the reply is decoded into. *)
Record result : Type := {
  Data_Greeting : string;
  Errors : list string
}.

Section Main.

(** [fmt.Sscan(input, &id)]: the integer read, or nothing on error. *)
Variable Sscan : string -> option Z.
(** The network and the decoder, as seen from the loop. *)
Variable Post : string -> string -> string -> reply result.
(** [server.Shutdown(ctx)] for a context with the given timeout. *)
Variable Shutdown : Z -> option error.

(** The body of the request. *)
Definition query (id : Z) : string :=
  Fmt.Sprintf_d
    ("{" +:+ dquote +:+ "query" +:+ dquote +:+ ": " +:+ dquote
         +:+ "query { greeting(id: ")
    (") }" +:+ dquote +:+ "}")
    id.

(** The address the loop posts to. *)
Definition postURL : string := "http://localhost:8080/".

(** Step 5, one turn of [for { ... }], from the prompt on. *)
Definition turn (line : scanned) : list event * control :=
  let prompt := Stdout "ID: " in
  match line with
  | ScanError =>
      ([prompt; Println "Ошибка ввода, попробуйте снова"], Continue)
  | Scanned input =>
      if decide (input = "exit"%string) then
        ([prompt; Println "Завершение работы."], Break)
      else
        match Sscan input with
        | None =>
            ([prompt; Println "Пожалуйста, введите число от 1 до 10"],
             Continue)
        | Some id =>
            let send :=
              HttpPost postURL "application/json" (query id) in
            match Post postURL "application/json" (query id) with
            | PostFailed err =>
                ([prompt; send;
                  Log ("Ошибка при отправке запроса: " +:+ err)], Continue)
            | DecodeFailed err =>
                ([prompt; send;
                  Log ("Ошибка декодирования ответа: " +:+ err)], Continue)
            | Decoded r =>
                match Errors r with
                | e0 :: _ =>
                    ([prompt; send;
                      Stdout ("Ошибка от сервера: " +:+ e0 +:+ newline)],
                     Continue)
                | [] =>
                    ([prompt; send;
                      Stdout ("Поздравление: " +:+ Data_Greeting r
                                +:+ newline +:+ newline)],
                     Continue)
                end
            end
        end
  end.

(** Step 6: graceful shutdown of the server. *)
Definition shutdown : list event * status :=
  let timeout := 5 * time.Second in
  match Shutdown timeout with
  | Some err =>
      ([Println "Останавливаем сервер..."; ServerShutdown timeout;
        Log ("Ошибка при остановке сервера: " +:+ err)], Exited 1)
  | None =>
      ([Println "Останавливаем сервер..."; ServerShutdown timeout;
        Println "Сервер остановлен."], Exited 0)
  end.

(** The loop over the lines typed so far.  It is left by [break] only;
    with the lines used up it sits in [Scanln] behind a fresh prompt. *)
Fixpoint loop (lines : list scanned) : list event * control :=
  match lines with
  | [] => ([Stdout "ID: "], Continue)
  | line :: rest =>
      match turn line with
      | (evs, Break) => (evs, Break)
      | (evs, Continue) =>
          let '(evs', c) := loop rest in (evs ++ evs', c)
      end
  end.

(** The main goroutine of [main], from step 3 on: what it does as long
    as nothing else ends the process. *)
Definition foreground (env : gmap string string) (lines : list scanned)
  : list event * status :=
  let port := port env in
  let start :=
    [ GoListenAndServe (Addr port);
      Println ("Введите ID поздравления (от 1 до 10) для получения текста. "
                 +:+ "Для выхода введите 'exit' или нажмите Ctrl+C.") ] in
  match loop lines with
  | (evs, Continue) => (start ++ evs, AwaitingInput)
  | (evs, Break) =>
      let '(evs', st) := shutdown in (start ++ evs ++ evs', st)
  end.

(** The process: the main goroutine beside the listener goroutine.
    [served] is what [ListenAndServe] returns if and when it returns.  When
    that is fatal the goroutine ends the process with its status, once the
    main goroutine has taken [after] more steps; unless the main goroutine
    has ended the process before that. *)
Definition main (served : serve_error) (after : nat)
    (env : gmap string string) (lines : list scanned)
  : list event * status :=
  let '(evs, st) := foreground env lines in
  match snd (listener (port env) served) with
  | None => (evs, st)
  | Some code =>
      match evs with
      | [] => ([], Exited code)
      | start :: rest =>
          if (after <? length rest)%nat then
            (start :: take after rest, Exited code)
          else
            match st with
            | Exited c => (evs, Exited c)
            | _ => (evs, Exited code)
            end
      end
  end.

(** The process on the characters of standard input; nothing when the
    input is not ASCII. *)
Definition run (served : serve_error) (after : nat)
    (env : gmap string string) (closed : bool) (stdin : string)
  : option (list event * status) :=
  match stdin_lines closed stdin with
  | (_, NotASCII) => None
  | (lines, Waiting) => Some (main served after env lines)
  | (lines, EndOfFile) =>
      let '(evs, st) := main served after env lines in
      Some (evs, match st with AwaitingInput => Spinning | _ => st end)
  end.

End Main.

End A.

(** ** Variant B: the greeting is an object with text and flowers *)

Module B.

Definition greetingType : graphql.Type_ :=
  graphql.NewObject "Greeting"
    [ ("text"%string,
       graphql.mkField (graphql.NewNonNull graphql.String) [] None);
      ("flowers"%string,
       graphql.mkField (graphql.NewNonNull graphql.String) [] None) ].

(** The [Resolve] closure of [greetingField]. *)
Definition Resolve (p : ResolveParams) : Go resolved :=
  let '(id, ok) := assert_int (map_index (Args p) "id") in
  if negb ok then
    mret (VNil, Some ("id должен быть целым числом" : error))
  else
    out_of_range ←
      (if id <? 1 then mret true
       else n ← len Greetings; mret (id >? n));
    if (out_of_range : bool) then
      mret (VNil, Some (Fmt.Sprintf_d "поздравление с ID " " не найдено" id))
    else
      (* indexing from 0 *)
      text ← index Greetings (GoInt.sub id 1);
      fl ← index FlowersCat (GoInt.sub id 1);
      mret (VGreetingResponse {| Text := text; Flowers := fl |}, None).

Definition greetingField : graphql.Field :=
  graphql.mkField
    greetingType
    [("id"%string, graphql.NewNonNull graphql.Int)]
    (Some Resolve).

Definition rootQuery : graphql.Type_ :=
  graphql.NewObject "Query" [("greeting"%string, greetingField)].

Definition schemaConfig : graphql.SchemaConfig :=
  {| graphql.Query := rootQuery |}.

(** Step 4: the port from the environment, or [8080] by default. *)
Definition port (env : gmap string string) : string :=
  let port := Getenv env "PORT" in
  if decide (port = EmptyString) then "8080"%string else port.

(** [server.Addr] *)
Definition Addr (port : string) : string := ":" +:+ port.

(** The body of the listener goroutine: two log lines, then the serving,
    which ends with [served]; any end but a closed server is fatal. *)
Definition listener (port : string) (served : serve_error)
  : list event * option Z :=
  let announce :=
    [ Log (Fmt.Sprintf_s "GraphQL сервер запущен на http://localhost:"
             EmptyString port);
      Log (Fmt.Sprintf_s "GraphiQL интерфейс доступен по адресу http://localhost:"
             EmptyString port) ] in
  match served with
  | ErrServerClosed => (announce, None)
  | ServeFailed err =>
      (announce ++ [Log ("ошибка запуска сервера: " +:+ err)], Some 1)
  end.

(** The anonymous struct the reply is decoded into. *)
Record result : Type := {
  Data_Greeting_Text : string;
  Data_Greeting_Flowers : string;
  Errors : list string
}.

Section Main.

(** [fmt.Sscan(input, &id)]: the integer read, or nothing on error. *)
Variable Sscan : string -> option Z.
(** The network and the decoder, as seen from the loop. *)
Variable Post : string -> string -> string -> reply result.
(** [server.Shutdown(ctx)] for a context with the given timeout. *)
Variable Shutdown : Z -> option error.

(** The body of the request (both fields are asked for). *)
Definition query (id : Z) : string :=
  Fmt.Sprintf_d
    ("{" +:+ dquote +:+ "query" +:+ dquote +:+ ": " +:+ dquote
         +:+ "query { greeting(id: ")
    (") { text flowers } }" +:+ dquote +:+ "}")
    id.

(** The address the loop posts to. *)
Definition postURL (port : string) : string :=
  Fmt.Sprintf_s "http://localhost:" "/" port.

(** Step 6, one turn of [for { ... }], from the prompt on. *)
Definition turn (port : string) (line : scanned) : list event * control :=
  let prompt := Stdout "ID: " in
  match line with
  | ScanError =>
      ([prompt; Println "Ошибка ввода, попробуйте снова"], Continue)
  | Scanned input =>
      if decide (input = "exit"%string) then
        ([prompt; Println "Завершение работы."], Break)
      else
        match Sscan input with
        | None =>
            ([prompt; Println "Пожалуйста, введите число от 1 до 10"],
             Continue)
        | Some id =>
            let send :=
              HttpPost (postURL port) "application/json" (query id) in
            match Post (postURL port) "application/json" (query id) with
            | PostFailed err =>
                ([prompt; send;
                  Log ("Ошибка при отправке запроса: " +:+ err)], Continue)
            | DecodeFailed err =>
                ([prompt; send;
                  Log ("Ошибка декодирования ответа: " +:+ err)], Continue)
            | Decoded r =>
                match Errors r with
                | e0 :: _ =>
                    ([prompt; send;
                      Stdout ("Ошибка от сервера: " +:+ e0 +:+ newline)],
                     Continue)
                | [] =>
                    ([prompt; send;
                      Stdout ("Поздравление: " +:+ Data_Greeting_Text r
                                +:+ newline);
                      Stdout ("Цветы: " +:+ Data_Greeting_Flowers r
                                +:+ newline +:+ newline)],
                     Continue)
                end
            end
        end
  end.

(** Step 7: graceful shutdown. *)
Definition shutdown : list event * status :=
  let timeout := 5 * time.Second in
  match Shutdown timeout with
  | Some err =>
      ([Println "Останавливаем сервер..."; ServerShutdown timeout;
        Log ("Ошибка при остановке сервера: " +:+ err)], Exited 1)
  | None =>
      ([Println "Останавливаем сервер..."; ServerShutdown timeout;
        Println "Сервер остановлен."], Exited 0)
  end.

(** The loop over the lines typed so far.  It is left by [break] only;
    with the lines used up it sits in [Scanln] behind a fresh prompt. *)
Fixpoint loop (port : string) (lines : list scanned) : list event * control :=
  match lines with
  | [] => ([Stdout "ID: "], Continue)
  | line :: rest =>
      match turn port line with
      | (evs, Break) => (evs, Break)
      | (evs, Continue) =>
          let '(evs', c) := loop port rest in (evs ++ evs', c)
      end
  end.

(** The main goroutine of [main], from step 4 on: what it does as long
    as nothing else ends the process. *)
Definition foreground (env : gmap string string) (lines : list scanned)
  : list event * status :=
  let port := port env in
  let start :=
    [ GoListenAndServe (Addr port);
      Println ("Введите ID поздравления (от 1 до 10) для получения текста и цветов. "
                 +:+ "Для выхода введите 'exit' или нажмите Ctrl+C.") ] in
  match loop port lines with
  | (evs, Continue) => (start ++ evs, AwaitingInput)
  | (evs, Break) =>
      let '(evs', st) := shutdown in (start ++ evs ++ evs', st)
  end.

(** The process: the main goroutine beside the listener goroutine.
    [served] is what [ListenAndServe] returns if and when it returns.  When
    that is fatal the goroutine ends the process with its status, once the
    main goroutine has taken [after] more steps; unless the main goroutine
    has ended the process before that. *)
Definition main (served : serve_error) (after : nat)
    (env : gmap string string) (lines : list scanned)
  : list event * status :=
  let '(evs, st) := foreground env lines in
  match snd (listener (port env) served) with
  | None => (evs, st)
  | Some code =>
      match evs with
      | [] => ([], Exited code)
      | start :: rest =>
          if (after <? length rest)%nat then
            (start :: take after rest, Exited code)
          else
            match st with
            | Exited c => (evs, Exited c)
            | _ => (evs, Exited code)
            end
      end
  end.

(** The process on the characters of standard input; nothing when the
    input is not ASCII. *)
Definition run (served : serve_error) (after : nat)
    (env : gmap string string) (closed : bool) (stdin : string)
  : option (list event * status) :=
  match stdin_lines closed stdin with
  | (_, NotASCII) => None
  | (lines, Waiting) => Some (main served after env lines)
  | (lines, EndOfFile) =>
      let '(evs, st) := main served after env lines in
      Some (evs, match st with AwaitingInput => Spinning | _ => st end)
  end.

End Main.

End B.

(** The two failures a resolver returns, as [(nil, err)]. *)
Definition invalid_id : resolved :=
  (VNil, Some ("id должен быть целым числом" : error)).

Definition not_found (id : Z) : resolved :=
  (VNil, Some (Fmt.Sprintf_d "поздравление с ID " " не найдено" id)).

(** The arguments of a query that gives [id] the value [v]. *)
Definition args_of (v : value) : ResolveParams :=
  {| Args := {[ "id"%string := v ]} |}.

(** The world [w] after the reads [new], in order. *)
Definition with_reads (w : world) (new : list access) : world :=
  {| w_greetings := w_greetings w;
     w_flowers := w_flowers w;
     w_trace := w_trace w ++ new |}.

(** An indexed read that stays inside its catalog as it stands in [w]. *)
Definition in_bounds (w : world) (a : access) : Prop :=
  match a with
  | ReadLen _ => True
  | ReadIndex c i => 0 <= i < Z.of_nat (length (slice_of c w))
  end.

(** A request, if [e] is one, goes to the address [url]. *)
Definition posts_to (url : string) (e : event) : Prop :=
  match e with
  | HttpPost u _ _ => u = url
  | _ => True
  end.

#[global] Instance scanned_eq_dec : EqDecision scanned.
Proof. solve_decision. Defined.

(** The lines the loop gets to read: those before the first "exit". *)
Fixpoint before_exit (lines : list scanned) : list scanned :=
  match lines with
  | [] => []
  | ScanError :: rest => ScanError :: before_exit rest
  | Scanned input :: rest =>
      if decide (input = "exit"%string) then []
      else Scanned input :: before_exit rest
  end.

(** A line from which [Sscan] reads an integer. *)
Definition scans (Sscan : string -> option Z) (line : scanned) : bool :=
  match line with
  | ScanError => false
  | Scanned input =>
      match Sscan input with
      | Some _ => true
      | None => false
      end
  end.

(** Is this event the call of [server.Shutdown]? *)
Definition is_shutdown (e : event) : bool :=
  match e with
  | ServerShutdown _ => true
  | _ => false
  end.

(** The text inside a resolver's result: of a [GreetingResponse] its
    [Text], of anything else the value itself. *)
Definition plain_text (r : resolved) : resolved :=
  match r with
  | (VGreetingResponse g, e) => (VString (Text g), e)
  | _ => r
  end.

(** The identifiers the loop reads: of the lines before the first "exit",
    those from which [Sscan] gets an integer, in order. *)
Fixpoint scanned_ids (Sscan : string -> option Z) (lines : list scanned)
  : list Z :=
  match lines with
  | [] => []
  | ScanError :: rest => scanned_ids Sscan rest
  | Scanned input :: rest =>
      if decide (input = "exit"%string) then []
      else
        match Sscan input with
        | Some id => id :: scanned_ids Sscan rest
        | None => scanned_ids Sscan rest
        end
  end.


(** * Properties *)

(** ** Running the definitions on the scenarios of the specification *)

Example catalog_sizes : length greetings = 10%nat /\ length flowers = 10%nat.
Proof. split; reflexivity. Qed.

Example FormatInt_samples :
  Fmt.FormatInt 0 = "0"%string /\ Fmt.FormatInt 11 = "11"%string /\
  Fmt.FormatInt (-7) = "-7"%string /\ Fmt.FormatInt 1024 = "1024"%string.
Proof. repeat split; reflexivity. Qed.

(** [Sscan] as Go reads integers: a sign, the prefixes 0b, 0o, 0x and the
    bare leading zero (octal), underscores between digits, the range of 64
    bits; what follows the number is left alone. *)
Example Sscan_int_samples :
  Sscan_int "7" = Some 7 /\ Sscan_int "-12" = Some (-12) /\
  Sscan_int "+5" = Some 5 /\ Sscan_int "12abc" = Some 12 /\
  Sscan_int "abc" = None /\ Sscan_int "exit" = None /\
  Sscan_int "-" = None /\ Sscan_int "017" = Some 15 /\
  Sscan_int "08" = Some 0 /\ Sscan_int "0x1F" = Some 31 /\
  Sscan_int "0x" = None /\ Sscan_int "1_000" = Some 1000 /\
  Sscan_int "1__0" = None /\
  Sscan_int "9223372036854775807" = Some 9223372036854775807 /\
  Sscan_int "9223372036854775808" = None /\
  Sscan_int "-9223372036854775808" = Some (-9223372036854775808).
Proof. repeat split; vm_compute; reflexivity. Qed.

(** [Scanln] reads one word; a second word on the line is an error that
    costs the character after the blanks; an empty line is an error. *)
Example Scanln_samples :
  Scanln false ("abc" +:+ newline +:+ "7" +:+ newline)
  = Returned (Scanned "abc") ("7" +:+ newline) /\
  Scanln false ("abc 57" +:+ newline) = Returned ScanError ("7" +:+ newline) /\
  Scanln false ("  exit  " +:+ newline) = Returned (Scanned "exit") EmptyString /\
  Scanln false newline = Returned ScanError EmptyString /\
  Scanln false "abc" = Blocked /\
  Scanln true "abc" = Returned (Scanned "abc") EmptyString /\
  Scanln true EmptyString = Returned ScanError EmptyString /\
  stdin_lines false ("abc 57" +:+ newline) = ([ScanError; Scanned "7"], Waiting).
Proof. repeat split; vm_compute; reflexivity. Qed.

Example port_number_samples :
  Net.port_number "8080" = Some 8080 /\ Net.port_number "08080" = Some 8080 /\
  Net.port_number "+8080" = Some 8080 /\ Net.port_number "9090" = Some 9090 /\
  Net.port_number "abc" = None /\ Net.port_number "0" = None /\
  Net.port_number "65536" = None /\
  Net.listen_port ":9090" = Some 9090 /\
  Net.dial_port "http://localhost:8080/" = Some 8080.
Proof. repeat split; vm_compute; reflexivity. Qed.

Example scenario_A_first_entry :
  fst (A.Resolve (args_of (VInt 1)) initial_world)
  = Returns (VString "С 8 Марта! Пусть каждый день дарит улыбки, радость и вдохновение!", None).
Proof. vm_compute. reflexivity. Qed.

Example scenario_B_zero :
  fst (A.Resolve (args_of (VInt 0)) initial_world)
  = Returns (VNil, Some "поздравление с ID 0 не найдено"%string).
Proof. vm_compute. reflexivity. Qed.

Example scenario_C_eleven :
  fst (B.Resolve (args_of (VInt 11)) initial_world)
  = Returns (VNil, Some "поздравление с ID 11 не найдено"%string).
Proof. vm_compute. reflexivity. Qed.

(** ** Integers and catalog reads *)

Lemma wrap_in_range (z : Z) : GoInt.in_range z -> GoInt.wrap z = z.
Proof.
  unfold GoInt.in_range, GoInt.wrap, GoInt.min_int, GoInt.max_int, GoInt.width.
  intros H. rewrite Z.mod_small; lia.
Qed.

Lemma index_returns (c : catalog) (i : Z) (w : world) (s : string) :
  0 <= i -> slice_of c w !! Z.to_nat i = Some s ->
  index c i w = (Returns s, record_access (ReadIndex c i) w).
Proof.
  intros Hi Hs. unfold index.
  pose proof (lookup_lt_Some _ _ _ Hs) as Hlt.
  replace (0 <=? i) with true by (symmetry; apply Z.leb_le; lia).
  replace (i <? Z.of_nat (length (slice_of c w))) with true
    by (symmetry; apply Z.ltb_lt; lia).
  simpl. rewrite Hs. reflexivity.
Qed.

Lemma index_in_bounds (c : catalog) (i : Z) (w : world) :
  0 <= i < Z.of_nat (length (slice_of c w)) ->
  exists s, slice_of c w !! Z.to_nat i = Some s /\
            index c i w = (Returns s, record_access (ReadIndex c i) w).
Proof.
  intros Hi.
  destruct (lookup_lt_is_Some_2 (slice_of c w) (Z.to_nat i)) as [s Hs]; [lia|].
  exists s. split; [exact Hs|]. apply index_returns; [lia|exact Hs].
Qed.

Lemma index_out_of_bounds (c : catalog) (i : Z) (w : world) :
  i < 0 \/ Z.of_nat (length (slice_of c w)) <= i ->
  index c i w
  = (Panics (IndexOutOfRange i (Z.of_nat (length (slice_of c w)))),
     record_access (ReadIndex c i) w).
Proof.
  intros Hi. unfold index.
  destruct (0 <=? i) eqn:H0; simpl; [|reflexivity].
  destruct (i <? Z.of_nat (length (slice_of c w))) eqn:H1; [|reflexivity].
  apply Z.leb_le in H0. apply Z.ltb_lt in H1. lia.
Qed.

(** ** The three paths of the resolvers, over any world *)

Section ResolverPaths.

Variable p : ResolveParams.
Variable w : world.

Lemma A_Resolve_invalid :
  snd (assert_int (map_index (Args p) "id")) = false ->
  A.Resolve p w = (Returns invalid_id, w).
Proof.
  unfold A.Resolve. destruct (assert_int _) as [id ok]. simpl.
  intros ->. reflexivity.
Qed.

Lemma B_Resolve_invalid :
  snd (assert_int (map_index (Args p) "id")) = false ->
  B.Resolve p w = (Returns invalid_id, w).
Proof.
  unfold B.Resolve. destruct (assert_int _) as [id ok]. simpl.
  intros ->. reflexivity.
Qed.

Variable id : Z.
Hypothesis Hid : map_index (Args p) "id" = VInt id.

Lemma A_Resolve_below : id < 1 -> A.Resolve p w = (Returns (not_found id), w).
Proof.
  intros H. unfold A.Resolve. rewrite Hid. simpl.
  unfold mbind, Go_bind.
  replace (id <? 1) with true by (symmetry; apply Z.ltb_lt; lia).
  reflexivity.
Qed.

Lemma B_Resolve_below : id < 1 -> B.Resolve p w = (Returns (not_found id), w).
Proof.
  intros H. unfold B.Resolve. rewrite Hid. simpl.
  unfold mbind, Go_bind.
  replace (id <? 1) with true by (symmetry; apply Z.ltb_lt; lia).
  reflexivity.
Qed.

Lemma A_Resolve_above :
  1 <= id -> Z.of_nat (length (w_greetings w)) < id ->
  A.Resolve p w = (Returns (not_found id), record_access (ReadLen Greetings) w).
Proof.
  intros H1 H2. unfold A.Resolve. rewrite Hid. simpl.
  unfold mbind, Go_bind.
  replace (id <? 1) with false by (symmetry; apply Z.ltb_ge; lia).
  unfold len. simpl.
  replace (id >? Z.of_nat (length (w_greetings w))) with true
    by (symmetry; rewrite Z.gtb_ltb; apply Z.ltb_lt; lia).
  reflexivity.
Qed.

Lemma B_Resolve_above :
  1 <= id -> Z.of_nat (length (w_greetings w)) < id ->
  B.Resolve p w = (Returns (not_found id), record_access (ReadLen Greetings) w).
Proof.
  intros H1 H2. unfold B.Resolve. rewrite Hid. simpl.
  unfold mbind, Go_bind.
  replace (id <? 1) with false by (symmetry; apply Z.ltb_ge; lia).
  unfold len. simpl.
  replace (id >? Z.of_nat (length (w_greetings w))) with true
    by (symmetry; rewrite Z.gtb_ltb; apply Z.ltb_lt; lia).
  reflexivity.
Qed.

(** Past the guard the resolver is the two (or three) catalog reads. *)
Lemma A_Resolve_guarded :
  1 <= id <= Z.of_nat (length (w_greetings w)) ->
  A.Resolve p w
  = match index Greetings (GoInt.sub id 1)
            (record_access (ReadLen Greetings) w) with
    | (Returns text, w') => (Returns (VString text, None), w')
    | (Panics e, w') => (Panics e, w')
    end.
Proof.
  intros H. unfold A.Resolve. rewrite Hid. simpl.
  unfold mbind, Go_bind.
  replace (id <? 1) with false by (symmetry; apply Z.ltb_ge; lia).
  unfold len. simpl.
  replace (id >? Z.of_nat (length (w_greetings w))) with false
    by (symmetry; rewrite Z.gtb_ltb; apply Z.ltb_ge; lia).
  reflexivity.
Qed.

Lemma B_Resolve_guarded :
  1 <= id <= Z.of_nat (length (w_greetings w)) ->
  B.Resolve p w
  = match index Greetings (GoInt.sub id 1)
            (record_access (ReadLen Greetings) w) with
    | (Returns text, w') =>
        match index FlowersCat (GoInt.sub id 1) w' with
        | (Returns fl, w'') =>
            (Returns (VGreetingResponse {| Text := text; Flowers := fl |}, None),
             w'')
        | (Panics e, w'') => (Panics e, w'')
        end
    | (Panics e, w') => (Panics e, w')
    end.
Proof.
  intros H. unfold B.Resolve. rewrite Hid. simpl.
  unfold mbind, Go_bind.
  replace (id <? 1) with false by (symmetry; apply Z.ltb_ge; lia).
  unfold len. simpl.
  replace (id >? Z.of_nat (length (w_greetings w))) with false
    by (symmetry; rewrite Z.gtb_ltb; apply Z.ltb_ge; lia).
  reflexivity.
Qed.

End ResolverPaths.

(** [%d] prints the decimal numeral of its argument: reading the text back
    as a decimal numeral gives the argument again. *)
Lemma FormatInt_decimal (z : Z) :
  Z.of_int <$> NilZero.int_of_string (Fmt.FormatInt z) = Some z.
Proof.
  unfold Fmt.FormatInt. pose proof (DecimalZ.of_to z) as H.
  destruct (Z.to_int z) as [d|d] eqn:E; destruct d;
    try (rewrite NilZero.isi by discriminate; exact (f_equal Some H)).
  - rewrite NilZero.isi_posnil. exact (f_equal Some H).
  - rewrite NilZero.isi_negnil. exact (f_equal Some H).
Qed.

Lemma sub_one_exact (id : Z) :
  1 <= id <= GoInt.max_int -> GoInt.sub id 1 = id - 1.
Proof.
  intros H. unfold GoInt.sub. apply wrap_in_range.
  unfold GoInt.in_range, GoInt.min_int, GoInt.max_int, GoInt.width in *.
  simpl in *. lia.
Qed.

Lemma map_index_lookup (m : gmap string value) (k : string) (v : value) :
  m !! k = Some v -> map_index m k = v.
Proof. unfold map_index. intros ->. reflexivity. Qed.

Lemma with_reads_nil (w : world) : with_reads w [] = w.
Proof. destruct w. unfold with_reads. simpl. rewrite app_nil_r. reflexivity. Qed.

(** ** The resolver on an identifier inside the catalog *)

Section Hit.

Variables (p : ResolveParams) (w : world) (id : Z).
Hypothesis Hid : map_index (Args p) "id" = VInt id.
Hypothesis Hlo : 1 <= id.
Hypothesis Hhi : id <= Z.of_nat (length (w_greetings w)).
Hypothesis Hlen : Z.of_nat (length (w_greetings w)) <= GoInt.max_int.

Lemma A_Resolve_hit :
  exists text,
    w_greetings w !! Z.to_nat (id - 1) = Some text /\
    A.Resolve p w
    = (Returns (VString text, None),
       with_reads w [ReadLen Greetings; ReadIndex Greetings (id - 1)]).
Proof.
  rewrite (A_Resolve_guarded p w id Hid) by lia.
  rewrite sub_one_exact by lia.
  destruct (index_in_bounds Greetings (id - 1)
              (record_access (ReadLen Greetings) w)) as (text & Ht & E).
  { simpl. lia. }
  exists text. split; [exact Ht|]. rewrite E.
  unfold record_access, with_reads. simpl.
  rewrite <- !app_assoc. reflexivity.
Qed.

Lemma B_Resolve_hit :
  length (w_flowers w) = length (w_greetings w) ->
  exists text fl,
    w_greetings w !! Z.to_nat (id - 1) = Some text /\
    w_flowers w !! Z.to_nat (id - 1) = Some fl /\
    B.Resolve p w
    = (Returns (VGreetingResponse {| Text := text; Flowers := fl |}, None),
       with_reads w [ReadLen Greetings; ReadIndex Greetings (id - 1);
                     ReadIndex FlowersCat (id - 1)]).
Proof.
  intros Hfl.
  rewrite (B_Resolve_guarded p w id Hid) by lia.
  rewrite sub_one_exact by lia.
  destruct (index_in_bounds Greetings (id - 1)
              (record_access (ReadLen Greetings) w)) as (text & Ht & E).
  { simpl. lia. }
  rewrite E.
  destruct (index_in_bounds FlowersCat (id - 1)
              (record_access (ReadIndex Greetings (id - 1))
                 (record_access (ReadLen Greetings) w))) as (fl & Hf & E').
  { simpl. lia. }
  rewrite E'. exists text, fl. repeat split; [exact Ht|exact Hf|].
  unfold record_access, with_reads. simpl.
  rewrite <- !app_assoc. reflexivity.
Qed.

(** The bound is checked against [greetings] alone: with fewer flowers
    than greetings an accepted identifier can run off the end. *)
Lemma B_Resolve_short_flowers :
  Z.of_nat (length (w_flowers w)) < id ->
  exists e w', B.Resolve p w = (Panics e, w').
Proof.
  intros Hfl.
  rewrite (B_Resolve_guarded p w id Hid) by lia.
  rewrite sub_one_exact by lia.
  destruct (index_in_bounds Greetings (id - 1)
              (record_access (ReadLen Greetings) w)) as (text & Ht & E).
  { simpl. lia. }
  rewrite E. rewrite index_out_of_bounds by (simpl; lia).
  eauto.
Qed.

End Hit.

(** ** The resolver: claims of the specification *)

(** C1.  For every integer [id] with 1 <= id <= 10 the resolver succeeds and
    returns the catalog entry at position [id-1]: in variant A the text
    [greetings[id-1]], in variant B the pair of [greetings[id-1]] and
    [flowers[id-1]]. *)
Theorem C1_resolve_in_range (p : ResolveParams) (w : world) (id : Z) :
  w_greetings w = greetings -> w_flowers w = flowers ->
  Args p !! "id" = Some (VInt id) ->
  1 <= id <= 10 ->
  exists text fl,
    greetings !! Z.to_nat (id - 1) = Some text /\
    flowers !! Z.to_nat (id - 1) = Some fl /\
    fst (A.Resolve p w) = Returns (VString text, None) /\
    fst (B.Resolve p w)
    = Returns (VGreetingResponse {| Text := text; Flowers := fl |}, None).
Proof.
  intros Hg Hf Harg Hr.
  apply map_index_lookup in Harg.
  assert (Hlen : Z.of_nat (length (w_greetings w)) = 10) by (rewrite Hg; reflexivity).
  assert (Hmax : Z.of_nat (length (w_greetings w)) <= GoInt.max_int)
    by (rewrite Hlen; vm_compute; discriminate).
  destruct (A_Resolve_hit p w id Harg) as (text & Ht & EA); [lia..|].
  destruct (B_Resolve_hit p w id Harg) as (text' & fl & Ht' & Hfl & EB);
    [lia..| rewrite Hg, Hf; reflexivity |].
  assert (text' = text) by congruence. subst text'.
  exists text, fl. rewrite <- Hg at 1. rewrite <- Hf at 1.
  rewrite EA, EB. auto.
Qed.

Lemma C1_resolve_in_range_witness :
  exists text fl,
    greetings !! Z.to_nat (3 - 1) = Some text /\
    flowers !! Z.to_nat (3 - 1) = Some fl /\
    fst (A.Resolve (args_of (VInt 3)) initial_world)
    = Returns (VString text, None) /\
    fst (B.Resolve (args_of (VInt 3)) initial_world)
    = Returns (VGreetingResponse {| Text := text; Flowers := fl |}, None).
Proof.
  apply (C1_resolve_in_range (args_of (VInt 3)) initial_world 3);
    [reflexivity | reflexivity | reflexivity | lia].
Defined.

(** C2.  For every integer [id] with id < 1 or id > 10 the resolver fails:
    it returns nil together with the error
    "поздравление с ID <id> не найдено", whose text contains the decimal
    numeral of [id]. *)
Theorem C2_out_of_range_not_found (p : ResolveParams) (w : world) (id : Z) :
  w_greetings w = greetings ->
  Args p !! "id" = Some (VInt id) ->
  id < 1 \/ id > 10 ->
  let msg := ("поздравление с ID " +:+ Fmt.FormatInt id +:+ " не найдено")%string in
  fst (A.Resolve p w) = Returns (VNil, Some msg) /\
  fst (B.Resolve p w) = Returns (VNil, Some msg) /\
  (exists pre post, msg = pre +:+ Fmt.FormatInt id +:+ post) /\
  Z.of_int <$> NilZero.int_of_string (Fmt.FormatInt id) = Some id.
Proof.
  intros Hg Harg Hr msg.
  apply map_index_lookup in Harg.
  assert (Hlen : Z.of_nat (length (w_greetings w)) = 10) by (rewrite Hg; reflexivity).
  repeat split.
  - destruct (Z_lt_le_dec id 1).
    + rewrite (A_Resolve_below p w id Harg) by lia. reflexivity.
    + rewrite (A_Resolve_above p w id Harg) by lia. reflexivity.
  - destruct (Z_lt_le_dec id 1).
    + rewrite (B_Resolve_below p w id Harg) by lia. reflexivity.
    + rewrite (B_Resolve_above p w id Harg) by lia. reflexivity.
  - eexists _, _. reflexivity.
  - apply FormatInt_decimal.
Qed.

Lemma C2_out_of_range_not_found_witness :
  fst (A.Resolve (args_of (VInt 11)) initial_world)
  = Returns (VNil, Some "поздравление с ID 11 не найдено"%string) /\
  fst (B.Resolve (args_of (VInt 11)) initial_world)
  = Returns (VNil, Some "поздравление с ID 11 не найдено"%string).
Proof.
  destruct (C2_out_of_range_not_found (args_of (VInt 11)) initial_world 11)
    as (HA & HB & _); [reflexivity | reflexivity | lia |].
  split; [exact HA | exact HB].
Defined.

(** C3.  For every argument value that is not an [int] (so for every value
    that is not an integer at all, and for a missing argument) the resolver
    returns nil with the error "id должен быть целым числом" and leaves the
    world as it found it: no catalog length and no catalog element is read. *)
Theorem C3_non_integer_rejected (p : ResolveParams) (w : world) :
  snd (assert_int (map_index (Args p) "id")) = false ->
  A.Resolve p w
  = (Returns (VNil, Some "id должен быть целым числом"%string), w) /\
  B.Resolve p w
  = (Returns (VNil, Some "id должен быть целым числом"%string), w).
Proof.
  intros H. split.
  - apply A_Resolve_invalid, H.
  - apply B_Resolve_invalid, H.
Qed.

Lemma C3_non_integer_rejected_witness :
  A.Resolve (args_of (VString "abc")) initial_world
  = (Returns (VNil, Some "id должен быть целым числом"%string), initial_world) /\
  B.Resolve (args_of (VString "abc")) initial_world
  = (Returns (VNil, Some "id должен быть целым числом"%string), initial_world).
Proof.
  apply (C3_non_integer_rejected (args_of (VString "abc")) initial_world).
  reflexivity.
Defined.

(** Whatever the argument and the catalogs, a run only appends reads to the
    trace, and its result does not depend on the trace it started from. *)
Lemma A_Resolve_frame (p : ResolveParams) (gs fs : list string) :
  exists (r : outcome resolved) (new : list access),
    forall t,
      A.Resolve p {| w_greetings := gs; w_flowers := fs; w_trace := t |}
      = (r, {| w_greetings := gs; w_flowers := fs; w_trace := t ++ new |}).
Proof.
  unfold A.Resolve, mbind, Go_bind, mret, Go_ret, len, index, record_access.
  destruct (assert_int _) as [id [|]]; simpl.
  2: { eexists _, []. intros t. rewrite app_nil_r. reflexivity. }
  destruct (id <? 1); simpl.
  { eexists _, []. intros t. rewrite app_nil_r. reflexivity. }
  destruct (id >? _); simpl.
  { eexists _, [_]. intros t. reflexivity. }
  destruct (_ && _); simpl.
  2: { eexists _, [_; _]. intros t. rewrite <- app_assoc. reflexivity. }
  destruct (gs !! _); simpl;
    eexists _, [_; _]; intros t; rewrite <- app_assoc; reflexivity.
Qed.

Lemma B_Resolve_frame (p : ResolveParams) (gs fs : list string) :
  exists (r : outcome resolved) (new : list access),
    forall t,
      B.Resolve p {| w_greetings := gs; w_flowers := fs; w_trace := t |}
      = (r, {| w_greetings := gs; w_flowers := fs; w_trace := t ++ new |}).
Proof.
  unfold B.Resolve, mbind, Go_bind, mret, Go_ret, len, index, record_access.
  destruct (assert_int _) as [id [|]]; simpl.
  2: { eexists _, []. intros t. rewrite app_nil_r. reflexivity. }
  destruct (id <? 1); simpl.
  { eexists _, []. intros t. rewrite app_nil_r. reflexivity. }
  destruct (id >? _); simpl.
  { eexists _, [_]. intros t. reflexivity. }
  destruct (_ && _); simpl.
  2: { eexists _, [_; _]. intros t. rewrite <- app_assoc. reflexivity. }
  destruct (gs !! _); simpl.
  2: { eexists _, [_; _]. intros t. rewrite <- app_assoc. reflexivity. }
  destruct (_ && _); simpl.
  2: { eexists _, [_; _; _]. intros t. rewrite <- !app_assoc. reflexivity. }
  destruct (fs !! _); simpl;
    eexists _, [_; _; _]; intros t; rewrite <- !app_assoc; reflexivity.
Qed.

(** C6.  The resolver is deterministic and free of side effects: two runs
    with the same argument against the same catalogs return the same
    payload, whatever happened before them, and a run leaves both catalogs
    as they were; the only trace it leaves is the list of its own reads. *)
Theorem C6_resolver_pure
    (p : ResolveParams) (gs fs : list string) (t1 t2 : list access) :
  let w1 := {| w_greetings := gs; w_flowers := fs; w_trace := t1 |} in
  let w2 := {| w_greetings := gs; w_flowers := fs; w_trace := t2 |} in
  (fst (A.Resolve p w1) = fst (A.Resolve p w2) /\
   fst (B.Resolve p w1) = fst (B.Resolve p w2)) /\
  (w_greetings (snd (A.Resolve p w1)) = gs /\
   w_flowers (snd (A.Resolve p w1)) = fs /\
   w_greetings (snd (B.Resolve p w1)) = gs /\
   w_flowers (snd (B.Resolve p w1)) = fs) /\
  (exists new, w_trace (snd (A.Resolve p w1)) = t1 ++ new) /\
  (exists new, w_trace (snd (B.Resolve p w1)) = t1 ++ new).
Proof.
  intros w1 w2. subst w1 w2.
  destruct (A_Resolve_frame p gs fs) as (ra & na & HA).
  destruct (B_Resolve_frame p gs fs) as (rb & nb & HB).
  rewrite !HA, !HB. simpl. eauto 10.
Qed.

(** ** Panic freedom *)

(** With as many flowers as greetings, and a catalog that an [int] can
    count, no argument makes a resolver panic, and every indexed read it
    performs is inside its catalog. *)
Lemma Resolve_total (p : ResolveParams) (w : world) :
  length (w_flowers w) = length (w_greetings w) ->
  Z.of_nat (length (w_greetings w)) <= GoInt.max_int ->
  (exists r new,
     A.Resolve p w = (Returns r, with_reads w new) /\ Forall (in_bounds w) new) /\
  (exists r new,
     B.Resolve p w = (Returns r, with_reads w new) /\ Forall (in_bounds w) new).
Proof.
  intros Hfl Hmax.
  destruct (assert_int (map_index (Args p) "id")) as [id ok] eqn:Ea.
  destruct ok.
  - assert (Hid : map_index (Args p) "id" = VInt id).
    { destruct (map_index (Args p) "id"); simpl in Ea; congruence. }
    destruct (Z_lt_le_dec id 1) as [Hlt|Hge].
    { split; exists (not_found id), [];
        rewrite with_reads_nil;
        (split; [|constructor]).
      - apply A_Resolve_below; assumption.
      - apply B_Resolve_below; assumption. }
    destruct (Z_lt_le_dec (Z.of_nat (length (w_greetings w))) id) as [Hgt|Hle].
    { split; exists (not_found id), [ReadLen Greetings];
        (split; [|repeat constructor]).
      - apply A_Resolve_above; assumption.
      - apply B_Resolve_above; assumption. }
    destruct (A_Resolve_hit p w id Hid) as (text & Ht & EA); [lia..|].
    destruct (B_Resolve_hit p w id Hid) as (text' & fl & _ & _ & EB); [lia..|].
    split; eexists _, _; (split; [eassumption|]).
    + repeat constructor; simpl; lia.
    + repeat constructor; simpl; lia.
  - assert (Hno : snd (assert_int (map_index (Args p) "id")) = false)
      by (rewrite Ea; reflexivity).
    split; exists invalid_id, []; rewrite with_reads_nil;
      (split; [|constructor]).
    + apply A_Resolve_invalid, Hno.
    + apply B_Resolve_invalid, Hno.
Qed.

(** C10.  On the catalogs of the source the resolvers return for every
    argument value, never panicking: every access [greetings[id-1]] and
    [flowers[id-1]] lies within bounds, since the guard
    1 <= id <= len(greetings) comes first and both catalogs have ten
    entries. *)
Theorem C10_resolver_never_panics (p : ResolveParams) (w : world) :
  w_greetings w = greetings -> w_flowers w = flowers ->
  (length greetings = 10%nat /\ length flowers = 10%nat) /\
  (exists r new,
     A.Resolve p w = (Returns r, with_reads w new) /\ Forall (in_bounds w) new) /\
  (exists r new,
     B.Resolve p w = (Returns r, with_reads w new) /\ Forall (in_bounds w) new).
Proof.
  intros Hg Hf. split; [split; reflexivity|].
  apply Resolve_total.
  - rewrite Hg, Hf. reflexivity.
  - rewrite Hg. vm_compute. discriminate.
Qed.

Lemma C10_resolver_never_panics_witness :
  exists r new,
    B.Resolve (args_of (VInt 10)) initial_world
    = (Returns r, with_reads initial_world new) /\
    Forall (in_bounds initial_world) new.
Proof.
  destruct (C10_resolver_never_panics (args_of (VInt 10)) initial_world)
    as (_ & _ & HB); [reflexivity | reflexivity |].
  exact HB.
Defined.

(** The equal lengths carry the claim: drop one flower and the identifier
    10, which the guard accepts, runs off the end of [flowers]. *)
Example B_panics_with_nine_flowers :
  fst (B.Resolve (args_of (VInt 10))
         {| w_greetings := greetings; w_flowers := take 9 flowers; w_trace := [] |})
  = Panics (IndexOutOfRange 9 9).
Proof. vm_compute. reflexivity. Qed.

(** ** The schema *)

Example greeting_signatures :
  graphql.type_name (graphql.Type' A.greetingField) = "String"%string /\
  graphql.type_name (graphql.Type' B.greetingField) = "Greeting"%string /\
  (graphql.type_name <$> graphql.arg_of A.greetingField "id") = Some "Int!"%string /\
  (graphql.type_name <$> graphql.arg_of B.greetingField "id") = Some "Int!"%string.
Proof. repeat split; reflexivity. Qed.

(** C4, as stated, fails: the result type of [greeting] is not non-null,
    neither in variant A ([graphql.String], unwrapped) nor in variant B
    ([greetingType], unwrapped). *)
Lemma C4_result_type_is_nullable :
  ~ (graphql.is_non_null (graphql.Type' A.greetingField) = true) /\
  ~ (graphql.is_non_null (graphql.Type' B.greetingField) = true) /\
  graphql.Type' A.greetingField <> graphql.NewNonNull graphql.String /\
  graphql.Type' B.greetingField <> graphql.NewNonNull B.greetingType.
Proof. repeat split; discriminate. Qed.

(** C4, amended.  The schema declares the root field [greeting] with one
    argument, [id], of the non-null type [Int!], and a nullable result
    type: [String] in variant A, and in variant B the object type
    [Greeting] whose fields [text] and [flowers] are both of type
    [String!]. *)
Theorem C4_schema_declaration :
  (* the root query has the single field greeting *)
  (graphql.Query A.schemaConfig
   = graphql.NewObject "Query" [("greeting"%string, A.greetingField)] /\
   graphql.Query B.schemaConfig
   = graphql.NewObject "Query" [("greeting"%string, B.greetingField)]) /\
  (* its only argument is id : Int! *)
  (graphql.Args' A.greetingField
   = [("id"%string, graphql.NewNonNull graphql.Int)] /\
   graphql.Args' B.greetingField
   = [("id"%string, graphql.NewNonNull graphql.Int)]) /\
  (* the result types are nullable *)
  (graphql.Type' A.greetingField = graphql.String /\
   graphql.Type' B.greetingField = B.greetingType /\
   graphql.is_non_null (graphql.Type' A.greetingField) = false /\
   graphql.is_non_null (graphql.Type' B.greetingField) = false) /\
  (* Greeting { text: String!, flowers: String! } *)
  (graphql.type_name B.greetingType = "Greeting"%string /\
   (graphql.Type' <$> graphql.field_of B.greetingType "text")
   = Some (graphql.NewNonNull graphql.String) /\
   (graphql.Type' <$> graphql.field_of B.greetingType "flowers")
   = Some (graphql.NewNonNull graphql.String)) /\
  (* the field is bound to the resolver *)
  (graphql.Resolve' A.greetingField = Some A.Resolve /\
   graphql.Resolve' B.greetingField = Some B.Resolve).
Proof. repeat split; reflexivity. Qed.

(** ** Strings *)

Lemma string_length_app (s t : string) :
  String.length (s +:+ t) = (String.length s + String.length t)%nat.
Proof.
  induction s as [|a s IH]; [reflexivity|].
  change (String.length (String a (s +:+ t))
          = S (String.length s + String.length t)).
  cbn [String.length]. rewrite IH. reflexivity.
Qed.

(** Appending the same text on the right is injective. *)
Lemma string_app_inj_r (s1 s2 t : string) : s1 +:+ t = s2 +:+ t -> s1 = s2.
Proof.
  revert s2. induction s1 as [|a s1 IH]; intros [|b s2] H.
  - reflexivity.
  - apply (f_equal String.length) in H.
    rewrite !string_length_app in H. cbn [String.length] in H. lia.
  - apply (f_equal String.length) in H.
    rewrite !string_length_app in H. cbn [String.length] in H. lia.
  - change (String a (s1 +:+ t) = String b (s2 +:+ t)) in H.
    injection H as -> H. f_equal. apply IH, H.
Qed.

(** ** The port *)

Lemma A_port_B_port (env : gmap string string) : A.port env = B.port env.
Proof. reflexivity. Qed.

Lemma port_unset (env : gmap string string) :
  Getenv env "PORT" = EmptyString -> A.port env = "8080"%string.
Proof. unfold A.port. intros ->. reflexivity. Qed.

Lemma port_set (env : gmap string string) :
  Getenv env "PORT" <> EmptyString -> A.port env = Getenv env "PORT".
Proof.
  unfold A.port. intros H. destruct (decide _) as [E|_]; [contradiction|reflexivity].
Qed.

(** ** The loop *)

Section Loop.

Variable Sscan : string -> option Z.
Variable PostA : string -> string -> string -> reply A.result.
Variable PostB : string -> string -> string -> reply B.result.
Variable Shutdown : Z -> option error.

Lemma A_turn_posts_to (line : scanned) :
  Forall (posts_to A.postURL) (fst (A.turn Sscan PostA line)).
Proof.
  unfold A.turn. destruct line as [|input]; simpl.
  { repeat constructor. }
  destruct (decide _); simpl; [repeat constructor|].
  destruct (Sscan input); simpl; [|repeat constructor].
  destruct (PostA _ _ _) as [e|e|r]; simpl; try (repeat constructor).
  destruct (A.Errors r); repeat constructor.
Qed.

Lemma B_turn_posts_to (port : string) (line : scanned) :
  Forall (posts_to (B.postURL port)) (fst (B.turn Sscan PostB port line)).
Proof.
  unfold B.turn. destruct line as [|input]; simpl.
  { repeat constructor. }
  destruct (decide _); simpl; [repeat constructor|].
  destruct (Sscan input); simpl; [|repeat constructor].
  destruct (PostB _ _ _) as [e|e|r]; simpl; try (repeat constructor).
  destruct (B.Errors r); repeat constructor.
Qed.

Lemma A_loop_posts_to (lines : list scanned) :
  Forall (posts_to A.postURL) (fst (A.loop Sscan PostA lines)).
Proof.
  induction lines as [|line rest IH]; simpl.
  { repeat constructor. }
  pose proof (A_turn_posts_to line) as Ht.
  destruct (A.turn Sscan PostA line) as [evs [|]]; simpl in *.
  - destruct (A.loop Sscan PostA rest) as [evs' c]; simpl in *.
    apply Forall_app; split; assumption.
  - exact Ht.
Qed.

Lemma B_loop_posts_to (port : string) (lines : list scanned) :
  Forall (posts_to (B.postURL port)) (fst (B.loop Sscan PostB port lines)).
Proof.
  induction lines as [|line rest IH]; simpl.
  { repeat constructor. }
  pose proof (B_turn_posts_to port line) as Ht.
  destruct (B.turn Sscan PostB port line) as [evs [|]]; simpl in *.
  - destruct (B.loop Sscan PostB port rest) as [evs' c]; simpl in *.
    apply Forall_app; split; assumption.
  - exact Ht.
Qed.

Lemma A_shutdown_posts_to (url : string) :
  Forall (posts_to url) (fst (A.shutdown Shutdown)).
Proof. unfold A.shutdown. destruct (Shutdown _); repeat constructor. Qed.

Lemma B_shutdown_posts_to (url : string) :
  Forall (posts_to url) (fst (B.shutdown Shutdown)).
Proof. unfold B.shutdown. destruct (Shutdown _); repeat constructor. Qed.

Lemma A_foreground_posts_to (env : gmap string string) (lines : list scanned) :
  Forall (posts_to A.postURL) (fst (A.foreground Sscan PostA Shutdown env lines)).
Proof.
  unfold A.foreground.
  pose proof (A_loop_posts_to lines) as Hl.
  pose proof (A_shutdown_posts_to A.postURL) as Hs.
  destruct (A.loop Sscan PostA lines) as [evs [|]]; simpl in *.
  - repeat constructor. exact Hl.
  - destruct (A.shutdown Shutdown) as [evs' st]; simpl in *.
    repeat constructor. apply Forall_app; split; assumption.
Qed.

Lemma B_foreground_posts_to (env : gmap string string) (lines : list scanned) :
  Forall (posts_to (B.postURL (B.port env)))
         (fst (B.foreground Sscan PostB Shutdown env lines)).
Proof.
  unfold B.foreground.
  pose proof (B_loop_posts_to (B.port env) lines) as Hl.
  pose proof (B_shutdown_posts_to (B.postURL (B.port env))) as Hs.
  destruct (B.loop Sscan PostB (B.port env) lines) as [evs [|]]; simpl in *.
  - repeat constructor. exact Hl.
  - destruct (B.shutdown Shutdown) as [evs' st]; simpl in *.
    repeat constructor. apply Forall_app; split; assumption.
Qed.

Lemma A_foreground_head (env : gmap string string) (lines : list scanned) :
  head (fst (A.foreground Sscan PostA Shutdown env lines))
  = Some (GoListenAndServe (A.Addr (A.port env))).
Proof.
  unfold A.foreground. destruct (A.loop Sscan PostA lines) as [evs [|]]; simpl.
  - reflexivity.
  - destruct (A.shutdown Shutdown); reflexivity.
Qed.

Lemma B_foreground_head (env : gmap string string) (lines : list scanned) :
  head (fst (B.foreground Sscan PostB Shutdown env lines))
  = Some (GoListenAndServe (B.Addr (B.port env))).
Proof.
  unfold B.foreground. destruct (B.loop Sscan PostB (B.port env) lines) as [evs [|]]; simpl.
  - reflexivity.
  - destruct (B.shutdown Shutdown); reflexivity.
Qed.

End Loop.

(** ** The process beside its listener *)

Section Beside.

Variable Sscan : string -> option Z.
Variable PostA : string -> string -> string -> reply A.result.
Variable PostB : string -> string -> string -> reply B.result.
Variable Shutdown : Z -> option error.
Variable after : nat.
Variable env : gmap string string.
Variable lines : list scanned.

(** While the listener serves, the process is its main goroutine. *)
Lemma A_main_serving :
  A.main Sscan PostA Shutdown ErrServerClosed after env lines
  = A.foreground Sscan PostA Shutdown env lines.
Proof.
  unfold A.main. destruct (A.foreground Sscan PostA Shutdown env lines).
  reflexivity.
Qed.

Lemma B_main_serving :
  B.main Sscan PostB Shutdown ErrServerClosed after env lines
  = B.foreground Sscan PostB Shutdown env lines.
Proof.
  unfold B.main. destruct (B.foreground Sscan PostB Shutdown env lines).
  reflexivity.
Qed.

(** In every case the events of the process are the start of the listener
    followed by a first part of what the main goroutine does next. *)
Lemma A_main_events (served : serve_error) :
  exists rest k,
    fst (A.foreground Sscan PostA Shutdown env lines)
    = GoListenAndServe (A.Addr (A.port env)) :: rest /\
    fst (A.main Sscan PostA Shutdown served after env lines)
    = GoListenAndServe (A.Addr (A.port env)) :: take k rest.
Proof.
  pose proof (A_foreground_head Sscan PostA Shutdown env lines) as Hh.
  unfold A.main.
  destruct (A.foreground Sscan PostA Shutdown env lines) as [evs st].
  cbn [fst] in *. destruct evs as [|e rest]; [discriminate|].
  injection Hh as ->. exists rest.
  destruct served; cbn [A.listener snd].
  - exists (length rest). rewrite firstn_all. split; reflexivity.
  - destruct (after <? length rest)%nat; cbn [fst].
    + exists after. split; reflexivity.
    + exists (length rest). rewrite firstn_all.
      destruct st; split; reflexivity.
Qed.

Lemma B_main_events (served : serve_error) :
  exists rest k,
    fst (B.foreground Sscan PostB Shutdown env lines)
    = GoListenAndServe (B.Addr (B.port env)) :: rest /\
    fst (B.main Sscan PostB Shutdown served after env lines)
    = GoListenAndServe (B.Addr (B.port env)) :: take k rest.
Proof.
  pose proof (B_foreground_head Sscan PostB Shutdown env lines) as Hh.
  unfold B.main.
  destruct (B.foreground Sscan PostB Shutdown env lines) as [evs st].
  cbn [fst] in *. destruct evs as [|e rest]; [discriminate|].
  injection Hh as ->. exists rest.
  destruct served; cbn [B.listener snd].
  - exists (length rest). rewrite firstn_all. split; reflexivity.
  - destruct (after <? length rest)%nat; cbn [fst].
    + exists after. split; reflexivity.
    + exists (length rest). rewrite firstn_all.
      destruct st; split; reflexivity.
Qed.

Lemma A_main_head (served : serve_error) :
  head (fst (A.main Sscan PostA Shutdown served after env lines))
  = Some (GoListenAndServe (A.Addr (A.port env))).
Proof. destruct (A_main_events served) as (rest & k & _ & ->). reflexivity. Qed.

Lemma B_main_head (served : serve_error) :
  head (fst (B.main Sscan PostB Shutdown served after env lines))
  = Some (GoListenAndServe (B.Addr (B.port env))).
Proof. destruct (B_main_events served) as (rest & k & _ & ->). reflexivity. Qed.

Lemma A_main_posts_to (served : serve_error) :
  Forall (posts_to A.postURL)
         (fst (A.main Sscan PostA Shutdown served after env lines)).
Proof.
  pose proof (A_foreground_posts_to Sscan PostA Shutdown env lines) as H.
  destruct (A_main_events served) as (rest & k & E & ->). rewrite E in H.
  apply Forall_cons in H as [H0 H]. apply Forall_cons. split; [exact H0|].
  apply Forall_take, H.
Qed.

Lemma B_main_posts_to (served : serve_error) :
  Forall (posts_to (B.postURL (B.port env)))
         (fst (B.main Sscan PostB Shutdown served after env lines)).
Proof.
  pose proof (B_foreground_posts_to Sscan PostB Shutdown env lines) as H.
  destruct (B_main_events served) as (rest & k & E & ->). rewrite E in H.
  apply Forall_cons in H as [H0 H]. apply Forall_cons. split; [exact H0|].
  apply Forall_take, H.
Qed.

End Beside.

(** ** The process: claims of the specification *)

(** C8.  The port is read from the variable PORT alone; it is "8080"
    whenever PORT is unset or empty, and the value of PORT otherwise; the
    server is started on the address ":" followed by that port. *)
Theorem C8_port_from_environment
    (Sscan : string -> option Z)
    (PostA : string -> string -> string -> reply A.result)
    (PostB : string -> string -> string -> reply B.result)
    (Shutdown : Z -> option error)
    (served : serve_error) (after : nat)
    (env : gmap string string) (lines : list scanned) :
  (env !! "PORT" = None \/ env !! "PORT" = Some EmptyString ->
   A.port env = "8080"%string /\ B.port env = "8080"%string) /\
  (forall v, env !! "PORT" = Some v -> v <> EmptyString ->
             A.port env = v /\ B.port env = v) /\
  (forall env' : gmap string string,
      env' !! "PORT" = env !! "PORT" ->
      A.port env' = A.port env /\ B.port env' = B.port env) /\
  head (fst (A.main Sscan PostA Shutdown served after env lines))
  = Some (GoListenAndServe (":" +:+ A.port env)) /\
  head (fst (B.main Sscan PostB Shutdown served after env lines))
  = Some (GoListenAndServe (":" +:+ B.port env)).
Proof.
  repeat split.
  - apply port_unset. unfold Getenv. destruct H as [-> | ->]; reflexivity.
  - rewrite <- A_port_B_port. apply port_unset.
    unfold Getenv. destruct H as [-> | ->]; reflexivity.
  - rewrite port_set; unfold Getenv; rewrite H; simpl; [reflexivity|assumption].
  - rewrite <- A_port_B_port.
    rewrite port_set; unfold Getenv; rewrite H; simpl; [reflexivity|assumption].
  - unfold A.port, Getenv. rewrite H. reflexivity.
  - unfold B.port, Getenv. rewrite H. reflexivity.
  - apply A_main_head.
  - apply B_main_head.
Qed.

Lemma C8_port_from_environment_witness :
  A.port (∅ : gmap string string) = "8080"%string /\
  B.port (∅ : gmap string string) = "8080"%string /\
  A.port ({[ "PORT"%string := "9090"%string ]} : gmap string string)
  = "9090"%string.
Proof.
  pose proof (C8_port_from_environment
                Sscan_int (fun _ _ _ => PostFailed "refused"%string)
                (fun _ _ _ => PostFailed "refused"%string) (fun _ => None)
                ErrServerClosed 0
                (∅ : gmap string string) []) as (H0 & _).
  pose proof (C8_port_from_environment
                Sscan_int (fun _ _ _ => PostFailed "refused"%string)
                (fun _ _ _ => PostFailed "refused"%string) (fun _ => None)
                ErrServerClosed 0
                ({[ "PORT"%string := "9090"%string ]} : gmap string string) [])
    as (_ & H1 & _).
  destruct H0 as [HA HB]; [left; reflexivity|].
  destruct (H1 "9090"%string) as [HA' _]; [reflexivity | discriminate |].
  auto.
Defined.

(** ** The loop, line by line *)

Section Lines.

Variable Sscan : string -> option Z.
Variable PostA : string -> string -> string -> reply A.result.
Variable PostB : string -> string -> string -> reply B.result.
Variable Shutdown : Z -> option error.
Variable port : string.



Lemma A_turn_exit :
  A.turn Sscan PostA (Scanned "exit")
  = ([Stdout "ID: "; Println "Завершение работы."], Break).
Proof. reflexivity. Qed.

Lemma B_turn_exit :
  B.turn Sscan PostB port (Scanned "exit")
  = ([Stdout "ID: "; Println "Завершение работы."], Break).
Proof. reflexivity. Qed.



(** A turn that reads a number does send a request. *)
Lemma A_turn_number (input : string) (id : Z) :
  input <> "exit"%string -> Sscan input = Some id ->
  HttpPost A.postURL "application/json" (A.query id)
    ∈ fst (A.turn Sscan PostA (Scanned input)).
Proof.
  intros Hne Hs. unfold A.turn.
  destruct (decide _) as [E|_]; [contradiction|]. rewrite Hs.
  destruct (PostA _ _ _) as [e|e|r]; simpl; [| | destruct (A.Errors r)];
    apply list_elem_of_further, list_elem_of_here.
Qed.

(** Once "exit" is among the lines the loop is left by [break]. *)
Lemma A_loop_breaks (lines rest : list scanned) :
  snd (A.loop Sscan PostA (lines ++ Scanned "exit" :: rest)) = Break.
Proof.
  induction lines as [|line lines IH]; simpl.
  - reflexivity.
  - destruct (A.turn Sscan PostA line) as [evs [|]]; simpl; [|reflexivity].
    destruct (A.loop Sscan PostA (lines ++ Scanned "exit" :: rest)); simpl in *.
    exact IH.
Qed.

Lemma B_loop_breaks (lines rest : list scanned) :
  snd (B.loop Sscan PostB port (lines ++ Scanned "exit" :: rest)) = Break.
Proof.
  induction lines as [|line lines IH]; simpl.
  - reflexivity.
  - destruct (B.turn Sscan PostB port line) as [evs [|]]; simpl; [|reflexivity].
    destruct (B.loop Sscan PostB port (lines ++ Scanned "exit" :: rest)); simpl in *.
    exact IH.
Qed.

(** The shutdown path ends the process whatever [Shutdown] returns. *)
Lemma A_shutdown_exits :
  exists evs code,
    A.shutdown Shutdown = (evs, Exited code) /\
    ServerShutdown (5 * time.Second) ∈ evs.
Proof.
  unfold A.shutdown. destruct (Shutdown _); eexists _, _;
    (split; [reflexivity | apply list_elem_of_further, list_elem_of_here]).
Qed.

Lemma B_shutdown_exits :
  exists evs code,
    B.shutdown Shutdown = (evs, Exited code) /\
    ServerShutdown (5 * time.Second) ∈ evs.
Proof.
  unfold B.shutdown. destruct (Shutdown _); eexists _, _;
    (split; [reflexivity | apply list_elem_of_further, list_elem_of_here]).
Qed.

End Lines.

(** ** Standard input, call by call *)















(** ** The shutdown path *)

(** Once "exit" is read the main goroutine goes from the loop into the
    shutdown: its events are those up to the [break] followed by those of
    the shutdown, and its status is the one the shutdown ends with. *)
Lemma A_foreground_exit
    (Sscan : string -> option Z)
    (PostA : string -> string -> string -> reply A.result)
    (Shutdown : Z -> option error)
    (env : gmap string string) (lines rest : list scanned) :
  exists evs,
    A.foreground Sscan PostA Shutdown env (lines ++ Scanned "exit" :: rest)
    = (evs ++ fst (A.shutdown Shutdown), snd (A.shutdown Shutdown)).
Proof.
  unfold A.foreground.
  pose proof (A_loop_breaks Sscan PostA lines rest) as Hb.
  destruct (A.loop Sscan PostA _) as [evs c]; cbn [snd] in Hb; subst c.
  destruct (A.shutdown Shutdown) as [evs' st]. cbn [fst snd].
  eexists (_ ++ evs). rewrite <- app_assoc. reflexivity.
Qed.

Lemma B_foreground_exit
    (Sscan : string -> option Z)
    (PostB : string -> string -> string -> reply B.result)
    (Shutdown : Z -> option error)
    (env : gmap string string) (lines rest : list scanned) :
  exists evs,
    B.foreground Sscan PostB Shutdown env (lines ++ Scanned "exit" :: rest)
    = (evs ++ fst (B.shutdown Shutdown), snd (B.shutdown Shutdown)).
Proof.
  unfold B.foreground.
  pose proof (B_loop_breaks Sscan PostB (B.port env) lines rest) as Hb.
  destruct (B.loop Sscan PostB _ _) as [evs c]; cbn [snd] in Hb; subst c.
  destruct (B.shutdown Shutdown) as [evs' st]. cbn [fst snd].
  eexists (_ ++ evs). rewrite <- app_assoc. reflexivity.
Qed.

(** Whatever the listener does, a process whose loop has read "exit" has
    exited. *)
Lemma A_main_exited
    (Sscan : string -> option Z)
    (PostA : string -> string -> string -> reply A.result)
    (Shutdown : Z -> option error)
    (served : serve_error) (after : nat)
    (env : gmap string string) (lines rest : list scanned) :
  exists code,
    snd (A.main Sscan PostA Shutdown served after env
           (lines ++ Scanned "exit" :: rest)) = Exited code.
Proof.
  destruct (A_foreground_exit Sscan PostA Shutdown env lines rest) as (evs & E).
  destruct (A_shutdown_exits Shutdown) as (evs' & code & Es & _).
  unfold A.main. rewrite E, Es. cbn [fst snd].
  destruct served; cbn [A.listener snd]; [eauto|].
  destruct (evs ++ evs') as [|e l]; [eauto|].
  destruct (after <? length l)%nat; eauto.
Qed.

Lemma B_main_exited
    (Sscan : string -> option Z)
    (PostB : string -> string -> string -> reply B.result)
    (Shutdown : Z -> option error)
    (served : serve_error) (after : nat)
    (env : gmap string string) (lines rest : list scanned) :
  exists code,
    snd (B.main Sscan PostB Shutdown served after env
           (lines ++ Scanned "exit" :: rest)) = Exited code.
Proof.
  destruct (B_foreground_exit Sscan PostB Shutdown env lines rest) as (evs & E).
  destruct (B_shutdown_exits Shutdown) as (evs' & code & Es & _).
  unfold B.main. rewrite E, Es. cbn [fst snd].
  destruct served; cbn [B.listener snd]; [eauto|].
  destruct (evs ++ evs') as [|e l]; [eauto|].
  destruct (after <? length l)%nat; eauto.
Qed.

(** C9.  When the loop has read "exit", the run of the process ends with
    the shutdown: the announcement, the call of [server.Shutdown] with a
    timeout of five seconds, and then, if that call returned an error, the
    log line that reports it and the exit status 1, otherwise the closing
    line and the exit status 0.  Whatever the listener does meanwhile, the
    process has exited. *)
Theorem C9_shutdown_reports_and_exits
    (Sscan : string -> option Z)
    (PostA : string -> string -> string -> reply A.result)
    (PostB : string -> string -> string -> reply B.result)
    (Shutdown : Z -> option error)
    (after : nat)
    (env : gmap string string) (lines rest : list scanned) :
  let read := lines ++ Scanned "exit" :: rest in
  (forall err : error,
      Shutdown 5000000000 = Some err ->
      (exists evs,
          A.main Sscan PostA Shutdown ErrServerClosed after env read
          = (evs ++ [Println "Останавливаем сервер...";
                     ServerShutdown 5000000000;
                     Log ("Ошибка при остановке сервера: " +:+ err)],
             Exited 1)) /\
      (exists evs,
          B.main Sscan PostB Shutdown ErrServerClosed after env read
          = (evs ++ [Println "Останавливаем сервер...";
                     ServerShutdown 5000000000;
                     Log ("Ошибка при остановке сервера: " +:+ err)],
             Exited 1))) /\
  (Shutdown 5000000000 = None ->
   (exists evs,
       A.main Sscan PostA Shutdown ErrServerClosed after env read
       = (evs ++ [Println "Останавливаем сервер...";
                  ServerShutdown 5000000000;
                  Println "Сервер остановлен."],
          Exited 0)) /\
   (exists evs,
       B.main Sscan PostB Shutdown ErrServerClosed after env read
       = (evs ++ [Println "Останавливаем сервер...";
                  ServerShutdown 5000000000;
                  Println "Сервер остановлен."],
          Exited 0))) /\
  (forall served : serve_error,
      (exists code,
          snd (A.main Sscan PostA Shutdown served after env read) = Exited code) /\
      (exists code,
          snd (B.main Sscan PostB Shutdown served after env read) = Exited code)).
Proof.
  intros read. subst read.
  destruct (A_foreground_exit Sscan PostA Shutdown env lines rest) as (ea & EA).
  destruct (B_foreground_exit Sscan PostB Shutdown env lines rest) as (eb & EB).
  rewrite A_main_serving, B_main_serving, EA, EB.
  unfold A.shutdown, B.shutdown.
  change (5 * time.Second) with 5000000000.
  split; [|split].
  - intros err ->. cbn [fst snd]. split; [exists ea | exists eb]; reflexivity.
  - intros ->. cbn [fst snd]. split; [exists ea | exists eb]; reflexivity.
  - intros served. split; [apply A_main_exited | apply B_main_exited].
Qed.

Lemma C9_shutdown_reports_and_exits_witness :
  exists evs,
    A.main Sscan_int (fun _ _ _ => PostFailed "refused"%string)
           (fun _ => Some "context deadline exceeded"%string)
           ErrServerClosed 0 (∅ : gmap string string)
           ([Scanned "7"] ++ Scanned "exit" :: [])
    = (evs ++ [Println "Останавливаем сервер...";
               ServerShutdown 5000000000;
               Log ("Ошибка при остановке сервера: "
                      +:+ "context deadline exceeded")],
       Exited 1).
Proof.
  pose proof (C9_shutdown_reports_and_exits
                Sscan_int (fun _ _ _ => PostFailed "refused"%string)
                (fun _ _ _ => PostFailed "refused"%string)
                (fun _ => Some "context deadline exceeded"%string)
                0 (∅ : gmap string string) [Scanned "7"] []) as (H & _).
  destruct (H "context deadline exceeded"%string) as (E & _); [reflexivity|].
  exact E.
Defined.

(** A whole run of variant B: a word, a number, then "exit", with a drain
    that times out.  One request is sent, and the process exits with 1. *)
Example B_run_to_exit :
  let run :=
    B.run Sscan_int (fun _ _ _ => PostFailed "refused"%string)
          (fun _ => Some "context deadline exceeded"%string)
          ErrServerClosed 0 (∅ : gmap string string) false
          ("abc" +:+ newline +:+ "7" +:+ newline +:+ "exit" +:+ newline) in
  (List.filter is_request <$> (fst <$> run))
  = Some [HttpPost "http://localhost:8080/" "application/json" (B.query 7)] /\
  (snd <$> run) = Some (Exited 1).
Proof. vm_compute. split; reflexivity. Qed.

(** * Further properties of the code *)

(** ** The resolvers over arbitrary catalogs *)

(** X1.  A resolver that returns hands back exactly one of a value and an
    error: nil with an error, or a value with no error. *)
Theorem Resolve_value_xor_error (p : ResolveParams) (w : world) :
  match fst (A.Resolve p w) with
  | Returns (v, e) => (v = VNil /\ is_Some e) \/ (v <> VNil /\ e = None)
  | Panics _ => True
  end /\
  match fst (B.Resolve p w) with
  | Returns (v, e) => (v = VNil /\ is_Some e) \/ (v <> VNil /\ e = None)
  | Panics _ => True
  end.
Proof.
  unfold A.Resolve, B.Resolve, mbind, Go_bind, mret, Go_ret, len, index,
    record_access.
  destruct (assert_int _) as [id [|]]; simpl; [|split; left; eauto].
  destruct (id <? 1); simpl; [split; left; eauto|].
  destruct (id >? _); simpl; [split; left; eauto|].
  destruct (_ && _); simpl; [|split; exact I].
  destruct (w_greetings w !! _); simpl; [|split; exact I].
  split; [right; split; [discriminate|reflexivity]|].
  destruct (_ && _); simpl; [|exact I].
  destruct (w_flowers w !! _); simpl; [|exact I].
  right; split; [discriminate|reflexivity].
Qed.

Lemma assert_int_true (v : value) (id : Z) :
  assert_int v = (id, true) -> v = VInt id.
Proof. destruct v; simpl; congruence. Qed.

(** X2.  Variant A never panics, whatever the catalog holds (an empty one
    included): it always returns. *)
Theorem A_Resolve_total (p : ResolveParams) (w : world) :
  Z.of_nat (length (w_greetings w)) <= GoInt.max_int ->
  exists r new, A.Resolve p w = (Returns r, with_reads w new).
Proof.
  intros Hmax.
  destruct (assert_int (map_index (Args p) "id")) as [id ok] eqn:Ea.
  destruct ok.
  - apply assert_int_true in Ea.
    destruct (Z_lt_le_dec id 1) as [Hlt|Hge].
    { exists (not_found id), []. rewrite with_reads_nil.
      apply A_Resolve_below; assumption. }
    destruct (Z_lt_le_dec (Z.of_nat (length (w_greetings w))) id) as [Hgt|Hle].
    { exists (not_found id), [ReadLen Greetings].
      apply A_Resolve_above; assumption. }
    destruct (A_Resolve_hit p w id Ea) as (text & _ & E); [lia..|].
    eauto.
  - exists invalid_id, []. rewrite with_reads_nil.
    apply A_Resolve_invalid. rewrite Ea. reflexivity.
Qed.

Lemma A_Resolve_total_witness :
  exists r new,
    A.Resolve (args_of (VInt 1))
      {| w_greetings := []; w_flowers := []; w_trace := [] |}
    = (Returns r,
       with_reads {| w_greetings := []; w_flowers := []; w_trace := [] |} new).
Proof.
  apply (A_Resolve_total (args_of (VInt 1))
           {| w_greetings := []; w_flowers := []; w_trace := [] |}).
  vm_compute. discriminate.
Defined.

(** With fewer flowers than the accepted identifier, variant B panics on
    the index [id-1] into [flowers]. *)
Lemma B_Resolve_panic_value (p : ResolveParams) (w : world) (id : Z) :
  Z.of_nat (length (w_greetings w)) <= GoInt.max_int ->
  map_index (Args p) "id" = VInt id ->
  1 <= id <= Z.of_nat (length (w_greetings w)) ->
  Z.of_nat (length (w_flowers w)) < id ->
  fst (B.Resolve p w)
  = Panics (IndexOutOfRange (id - 1) (Z.of_nat (length (w_flowers w)))).
Proof.
  intros Hmax Ea Hr Hfl.
  rewrite (B_Resolve_guarded p w id Ea) by lia.
  rewrite sub_one_exact by lia.
  destruct (index_in_bounds Greetings (id - 1)
              (record_access (ReadLen Greetings) w)) as (text & _ & E1).
  { simpl. lia. }
  rewrite E1. rewrite index_out_of_bounds by (simpl; lia).
  reflexivity.
Qed.

(** X3.  Variant B panics exactly when the argument is an [int] that the
    guard accepts (1 <= id <= len(greetings)) but [flowers] has fewer than
    [id] entries; the panic is the index [id-1] out of range for
    [flowers]. *)
Theorem B_Resolve_panics_iff (p : ResolveParams) (w : world) :
  Z.of_nat (length (w_greetings w)) <= GoInt.max_int ->
  ((exists e w', B.Resolve p w = (Panics e, w')) <->
   (exists id,
       map_index (Args p) "id" = VInt id /\
       1 <= id <= Z.of_nat (length (w_greetings w)) /\
       Z.of_nat (length (w_flowers w)) < id)) /\
  (forall id,
      map_index (Args p) "id" = VInt id ->
      1 <= id <= Z.of_nat (length (w_greetings w)) ->
      Z.of_nat (length (w_flowers w)) < id ->
      fst (B.Resolve p w)
      = Panics (IndexOutOfRange (id - 1) (Z.of_nat (length (w_flowers w))))).
Proof.
  intros Hmax. split; [split|].
  - intros (e & w' & E).
    destruct (assert_int (map_index (Args p) "id")) as [id ok] eqn:Ea.
    destruct ok.
    + apply assert_int_true in Ea.
      destruct (Z_lt_le_dec id 1) as [Hlt|Hge].
      { rewrite (B_Resolve_below p w id Ea Hlt) in E. discriminate. }
      destruct (Z_lt_le_dec (Z.of_nat (length (w_greetings w))) id) as [Hgt|Hle].
      { rewrite (B_Resolve_above p w id Ea Hge Hgt) in E. discriminate. }
      destruct (Z_lt_le_dec (Z.of_nat (length (w_flowers w))) id) as [Hfl|Hfl].
      * exists id. repeat split; assumption.
      * exfalso.
        rewrite (B_Resolve_guarded p w id Ea) in E by lia.
        rewrite sub_one_exact in E by lia.
        destruct (index_in_bounds Greetings (id - 1)
                    (record_access (ReadLen Greetings) w)) as (text & _ & E1).
        { simpl. lia. }
        rewrite E1 in E.
        destruct (index_in_bounds FlowersCat (id - 1)
                    (record_access (ReadIndex Greetings (id - 1))
                       (record_access (ReadLen Greetings) w))) as (fl & _ & E2).
        { simpl. lia. }
        rewrite E2 in E. discriminate.
    + rewrite B_Resolve_invalid in E by (rewrite Ea; reflexivity).
      discriminate.
  - intros (id & Hid & Hr & Hfl).
    pose proof (B_Resolve_panic_value p w id Hmax Hid Hr Hfl) as E.
    destruct (B.Resolve p w) as [r w']. cbn [fst] in E. subst r. eauto.
  - intros id Hid Hr Hfl. apply B_Resolve_panic_value; assumption.
Qed.

Lemma B_Resolve_panics_iff_witness :
  fst (B.Resolve (args_of (VInt 10))
         {| w_greetings := greetings; w_flowers := take 9 flowers;
            w_trace := [] |})
  = Panics (IndexOutOfRange (10 - 1) (Z.of_nat (length (take 9 flowers)))).
Proof.
  destruct (B_Resolve_panics_iff (args_of (VInt 10))
              {| w_greetings := greetings; w_flowers := take 9 flowers;
                 w_trace := [] |}) as [_ H].
  - vm_compute. discriminate.
  - apply (H 10); [reflexivity | vm_compute; split; discriminate
                  | vm_compute; reflexivity].
Defined.

(** X4.  Variant A answers with a value exactly when the argument is an
    [int] within 1..len(greetings); the value is then the string at
    position [id-1].  For every other argument it answers with nil and an
    error. *)
Theorem A_Resolve_succeeds_iff (p : ResolveParams) (w : world) (v : value) :
  Z.of_nat (length (w_greetings w)) <= GoInt.max_int ->
  (fst (A.Resolve p w) = Returns (v, None) <->
   (exists id text,
       map_index (Args p) "id" = VInt id /\
       1 <= id <= Z.of_nat (length (w_greetings w)) /\
       w_greetings w !! Z.to_nat (id - 1) = Some text /\
       v = VString text)) /\
  ((forall id, map_index (Args p) "id" = VInt id ->
               id < 1 \/ Z.of_nat (length (w_greetings w)) < id) ->
   exists e, fst (A.Resolve p w) = Returns (VNil, Some e)).
Proof.
  intros Hmax. split; [split|].
  - intros E.
    destruct (assert_int (map_index (Args p) "id")) as [id ok] eqn:Ea.
    destruct ok.
    + apply assert_int_true in Ea.
      destruct (Z_lt_le_dec id 1) as [Hlt|Hge].
      { rewrite (A_Resolve_below p w id Ea Hlt) in E. discriminate. }
      destruct (Z_lt_le_dec (Z.of_nat (length (w_greetings w))) id) as [Hgt|Hle].
      { rewrite (A_Resolve_above p w id Ea Hge Hgt) in E. discriminate. }
      destruct (A_Resolve_hit p w id Ea) as (text & Ht & E'); [lia..|].
      rewrite E' in E. simpl in E. exists id, text.
      repeat split; try assumption; try lia. congruence.
    + rewrite A_Resolve_invalid in E by (rewrite Ea; reflexivity).
      discriminate.
  - intros (id & text & Hid & Hr & Ht & ->).
    destruct (A_Resolve_hit p w id Hid) as (text' & Ht' & E'); [lia..|].
    rewrite E'. simpl. congruence.
  - intros Hout.
    destruct (assert_int (map_index (Args p) "id")) as [id ok] eqn:Ea.
    destruct ok.
    + apply assert_int_true in Ea.
      destruct (Hout id Ea) as [Hlt|Hgt].
      * rewrite (A_Resolve_below p w id Ea Hlt). eexists. reflexivity.
      * destruct (Z_lt_le_dec id 1) as [Hlt|Hge].
        { rewrite (A_Resolve_below p w id Ea Hlt). eexists. reflexivity. }
        rewrite (A_Resolve_above p w id Ea Hge Hgt). eexists. reflexivity.
    + rewrite A_Resolve_invalid by (rewrite Ea; reflexivity).
      eexists. reflexivity.
Qed.

Lemma A_Resolve_succeeds_iff_witness :
  (exists id text,
      map_index (Args (args_of (VInt 2))) "id" = VInt id /\
      1 <= id <= Z.of_nat (length (w_greetings initial_world)) /\
      w_greetings initial_world !! Z.to_nat (id - 1) = Some text /\
      VString "Поздравляю с Международным женским днём! Желаю весеннего настроения, любви и счастья!"
      = VString text) /\
  (exists e, fst (A.Resolve (args_of (VString "two")) initial_world)
             = Returns (VNil, Some e)).
Proof.
  split.
  - apply (A_Resolve_succeeds_iff (args_of (VInt 2)) initial_world).
    + vm_compute. discriminate.
    + vm_compute. reflexivity.
  - apply (A_Resolve_succeeds_iff (args_of (VString "two")) initial_world VNil).
    + vm_compute. discriminate.
    + intros id H. vm_compute in H. discriminate.
Defined.

(** X5.  The two variants agree: whenever variant B returns, variant A
    returns the same thing with the [GreetingResponse] replaced by its text;
    in particular both fail with the same error on the same arguments. *)
Theorem B_Resolve_refines_A (p : ResolveParams) (w : world) (r : resolved) :
  fst (B.Resolve p w) = Returns r ->
  fst (A.Resolve p w) = Returns (plain_text r).
Proof.
  unfold A.Resolve, B.Resolve, mbind, Go_bind, mret, Go_ret, len, index,
    record_access.
  destruct (assert_int _) as [id [|]]; simpl; [|intros [= <-]; reflexivity].
  destruct (id <? 1); simpl; [intros [= <-]; reflexivity|].
  destruct (id >? _); simpl; [intros [= <-]; reflexivity|].
  destruct (_ && _); simpl; [|discriminate].
  destruct (w_greetings w !! _); simpl; [|discriminate].
  destruct (_ && _); simpl; [|discriminate].
  destruct (w_flowers w !! _); simpl; [|discriminate].
  intros [= <-]. reflexivity.
Qed.

Lemma B_Resolve_refines_A_witness :
  fst (A.Resolve (args_of (VInt 4)) initial_world)
  = Returns (VString "Пусть в этот день сбудутся самые заветные мечты. С праздником весны!",
             None).
Proof.
  apply (B_Resolve_refines_A (args_of (VInt 4)) initial_world
           (VGreetingResponse
              {| Text := "Пусть в этот день сбудутся самые заветные мечты. С праздником весны!";
                 Flowers := "🌸🌸🌸" |}, None)).
  vm_compute. reflexivity.
Defined.

(** X6.  What a run reads, and in which order: first the length of
    [greetings], then the one element of [greetings], then (variant B) the
    element of [flowers] at the same index, stopping early on the failure
    paths.  Nothing else is read: never the length of [flowers], never a
    second element of a catalog. *)
Theorem Resolve_reads (p : ResolveParams) (w : world) :
  exists (i : Z) (newA newB : list access),
    snd (A.Resolve p w) = with_reads w newA /\
    snd (B.Resolve p w) = with_reads w newB /\
    newA `prefix_of` [ReadLen Greetings; ReadIndex Greetings i] /\
    newB `prefix_of` [ReadLen Greetings; ReadIndex Greetings i;
                      ReadIndex FlowersCat i].
Proof.
  destruct w as [gs fs t].
  unfold A.Resolve, B.Resolve, mbind, Go_bind, mret, Go_ret, len, index,
    record_access, with_reads.
  destruct (assert_int _) as [id [|]]; simpl.
  2: { exists 0, [], []. rewrite app_nil_r.
       repeat split; apply prefix_nil. }
  destruct (id <? 1); simpl.
  { exists 0, [], []. rewrite app_nil_r. repeat split; apply prefix_nil. }
  destruct (id >? _); simpl.
  { exists 0, [ReadLen Greetings], [ReadLen Greetings].
    repeat split; apply prefix_cons, prefix_nil. }
  exists (GoInt.sub id 1).
  destruct (_ && _); simpl.
  2: { exists [ReadLen Greetings; ReadIndex Greetings (GoInt.sub id 1)],
              [ReadLen Greetings; ReadIndex Greetings (GoInt.sub id 1)].
       rewrite <- app_assoc.
       repeat split; [reflexivity | do 2 apply prefix_cons; apply prefix_nil]. }
  destruct (gs !! _); simpl.
  2: { exists [ReadLen Greetings; ReadIndex Greetings (GoInt.sub id 1)],
              [ReadLen Greetings; ReadIndex Greetings (GoInt.sub id 1)].
       rewrite <- app_assoc.
       repeat split; [reflexivity | do 2 apply prefix_cons; apply prefix_nil]. }
  exists [ReadLen Greetings; ReadIndex Greetings (GoInt.sub id 1)],
         [ReadLen Greetings; ReadIndex Greetings (GoInt.sub id 1);
          ReadIndex FlowersCat (GoInt.sub id 1)].
  split; [rewrite <- app_assoc; reflexivity|].
  split; [|split; reflexivity].
  destruct (_ && _); simpl; [destruct (fs !! _); simpl|];
    rewrite <- !app_assoc; reflexivity.
Qed.

(** ** The request body *)

Lemma FormatInt_inj (a b : Z) : Fmt.FormatInt a = Fmt.FormatInt b -> a = b.
Proof.
  intros H. pose proof (FormatInt_decimal a) as Ha.
  rewrite H, FormatInt_decimal in Ha. congruence.
Qed.

Lemma Sprintf_d_inj (pre post : string) (a b : Z) :
  Fmt.Sprintf_d pre post a = Fmt.Sprintf_d pre post b -> a = b.
Proof.
  unfold Fmt.Sprintf_d. intros H.
  apply String.app_inj in H. apply string_app_inj_r in H.
  apply FormatInt_inj, H.
Qed.

(** X7.  The request body determines the identifier: two different
    identifiers never yield the same body, in either variant. *)
Theorem query_injective (id1 id2 : Z) :
  id1 <> id2 ->
  A.query id1 <> A.query id2 /\ B.query id1 <> B.query id2.
Proof.
  intros Hne. split; intros H; apply Hne; exact (Sprintf_d_inj _ _ _ _ H).
Qed.

Lemma query_injective_witness :
  A.query 3 <> A.query 4 /\ B.query 3 <> B.query 4.
Proof. apply (query_injective 3 4). lia. Defined.

(** ** One turn of the loop *)

Section Turns.

Variable Sscan : string -> option Z.
Variable PostA : string -> string -> string -> reply A.result.
Variable PostB : string -> string -> string -> reply B.result.
Variable port : string.

Lemma A_turn_continue (line : scanned) :
  line <> Scanned "exit" -> snd (A.turn Sscan PostA line) = Continue.
Proof.
  intros Hne. unfold A.turn. destruct line as [|input]; [reflexivity|].
  destruct (decide _) as [->|_]; [contradiction|].
  destruct (Sscan input); [|reflexivity].
  destruct (PostA _ _ _) as [e|e|r]; try reflexivity.
  destruct (A.Errors r); reflexivity.
Qed.

Lemma B_turn_continue (line : scanned) :
  line <> Scanned "exit" -> snd (B.turn Sscan PostB port line) = Continue.
Proof.
  intros Hne. unfold B.turn. destruct line as [|input]; [reflexivity|].
  destruct (decide _) as [->|_]; [contradiction|].
  destruct (Sscan input); [|reflexivity].
  destruct (PostB _ _ _) as [e|e|r]; try reflexivity.
  destruct (B.Errors r); reflexivity.
Qed.

(** A turn sends one request when its line scans, none otherwise. *)
Lemma A_turn_requests (line : scanned) :
  line <> Scanned "exit" ->
  List.filter is_request (fst (A.turn Sscan PostA line))
  = match line with
    | Scanned input =>
        match Sscan input with
        | Some id => [HttpPost A.postURL "application/json" (A.query id)]
        | None => []
        end
    | ScanError => []
    end.
Proof.
  intros Hne. unfold A.turn. destruct line as [|input]; [reflexivity|].
  destruct (decide _) as [->|_]; [contradiction|].
  destruct (Sscan input); [|reflexivity].
  destruct (PostA _ _ _) as [e|e|r]; try reflexivity.
  destruct (A.Errors r); reflexivity.
Qed.

Lemma B_turn_requests (line : scanned) :
  line <> Scanned "exit" ->
  List.filter is_request (fst (B.turn Sscan PostB port line))
  = match line with
    | Scanned input =>
        match Sscan input with
        | Some id => [HttpPost (B.postURL port) "application/json" (B.query id)]
        | None => []
        end
    | ScanError => []
    end.
Proof.
  intros Hne. unfold B.turn. destruct line as [|input]; [reflexivity|].
  destruct (decide _) as [->|_]; [contradiction|].
  destruct (Sscan input); [|reflexivity].
  destruct (PostB _ _ _) as [e|e|r]; try reflexivity.
  destruct (B.Errors r); reflexivity.
Qed.

Lemma A_turn_no_shutdown (line : scanned) :
  List.filter is_shutdown (fst (A.turn Sscan PostA line)) = [].
Proof.
  unfold A.turn. destruct line as [|input]; [reflexivity|].
  destruct (decide _); [reflexivity|].
  destruct (Sscan input); [|reflexivity].
  destruct (PostA _ _ _) as [e|e|r]; try reflexivity.
  destruct (A.Errors r); reflexivity.
Qed.

Lemma B_turn_no_shutdown (line : scanned) :
  List.filter is_shutdown (fst (B.turn Sscan PostB port line)) = [].
Proof.
  unfold B.turn. destruct line as [|input]; [reflexivity|].
  destruct (decide _); [reflexivity|].
  destruct (Sscan input); [|reflexivity].
  destruct (PostB _ _ _) as [e|e|r]; try reflexivity.
  destruct (B.Errors r); reflexivity.
Qed.

(** The loop, one line further. *)
Lemma A_loop_cons (line : scanned) (rest : list scanned) :
  line <> Scanned "exit" ->
  A.loop Sscan PostA (line :: rest)
  = (fst (A.turn Sscan PostA line) ++ fst (A.loop Sscan PostA rest),
     snd (A.loop Sscan PostA rest)).
Proof.
  intros Hne. pose proof (A_turn_continue line Hne) as Hc.
  cbn [A.loop]. destruct (A.turn Sscan PostA line) as [evs c].
  simpl in Hc. subst c. destruct (A.loop Sscan PostA rest). reflexivity.
Qed.

Lemma B_loop_cons (line : scanned) (rest : list scanned) :
  line <> Scanned "exit" ->
  B.loop Sscan PostB port (line :: rest)
  = (fst (B.turn Sscan PostB port line) ++ fst (B.loop Sscan PostB port rest),
     snd (B.loop Sscan PostB port rest)).
Proof.
  intros Hne. pose proof (B_turn_continue line Hne) as Hc.
  cbn [B.loop]. destruct (B.turn Sscan PostB port line) as [evs c].
  simpl in Hc. subst c. destruct (B.loop Sscan PostB port rest). reflexivity.
Qed.

Lemma A_loop_exit (rest : list scanned) :
  A.loop Sscan PostA (Scanned "exit" :: rest)
  = ([Stdout "ID: "; Println "Завершение работы."], Break).
Proof. reflexivity. Qed.

Lemma B_loop_exit (rest : list scanned) :
  B.loop Sscan PostB port (Scanned "exit" :: rest)
  = ([Stdout "ID: "; Println "Завершение работы."], Break).
Proof. reflexivity. Qed.

End Turns.

(** ** The loop as a whole *)

(** X8.  The loop is left only through "exit": it has ended exactly when one
    of the lines read was "exit".  No scan error, no failed request and no
    error reply ends it. *)
Theorem loop_breaks_iff_exit
    (Sscan : string -> option Z)
    (PostA : string -> string -> string -> reply A.result)
    (PostB : string -> string -> string -> reply B.result)
    (port : string) (lines : list scanned) :
  (snd (A.loop Sscan PostA lines) = Break <-> Scanned "exit" ∈ lines) /\
  (snd (B.loop Sscan PostB port lines) = Break <-> Scanned "exit" ∈ lines).
Proof.
  induction lines as [|line rest [IHA IHB]].
  - split; (split; [discriminate | intros H; inversion H]).
  - destruct (decide (line = Scanned "exit")) as [->|Hne].
    + split; (split; [intros _; apply list_elem_of_here | reflexivity]).
    + rewrite A_loop_cons, B_loop_cons by assumption. simpl.
      rewrite IHA, IHB. rewrite !elem_of_cons.
      split; (split; [intros H; right; exact H | intros [H|H]; [congruence|exact H]]).
Qed.

(** X9.  What is typed after "exit" is never looked at: the run is the same
    whatever follows that line. *)
Theorem main_ignores_lines_after_exit
    (Sscan : string -> option Z)
    (PostA : string -> string -> string -> reply A.result)
    (PostB : string -> string -> string -> reply B.result)
    (Shutdown : Z -> option error)
    (served : serve_error) (after : nat)
    (env : gmap string string) (lines rest : list scanned) :
  A.main Sscan PostA Shutdown served after env (lines ++ Scanned "exit" :: rest)
  = A.main Sscan PostA Shutdown served after env (lines ++ [Scanned "exit"]) /\
  B.main Sscan PostB Shutdown served after env (lines ++ Scanned "exit" :: rest)
  = B.main Sscan PostB Shutdown served after env (lines ++ [Scanned "exit"]).
Proof.
  assert (HA : A.loop Sscan PostA (lines ++ Scanned "exit" :: rest)
               = A.loop Sscan PostA (lines ++ [Scanned "exit"])).
  { induction lines as [|line lines IH]; [reflexivity|].
    destruct (decide (line = Scanned "exit")) as [->|Hne]; [reflexivity|].
    rewrite <- !app_comm_cons, !A_loop_cons by assumption.
    rewrite IH. reflexivity. }
  assert (HB : forall port,
             B.loop Sscan PostB port (lines ++ Scanned "exit" :: rest)
             = B.loop Sscan PostB port (lines ++ [Scanned "exit"])).
  { clear HA. intros port. induction lines as [|line lines IH]; [reflexivity|].
    destruct (decide (line = Scanned "exit")) as [->|Hne]; [reflexivity|].
    rewrite <- !app_comm_cons, !B_loop_cons by assumption.
    rewrite IH. reflexivity. }
  unfold A.main, B.main, A.foreground, B.foreground.
  rewrite HA, HB. split; reflexivity.
Qed.

(** X10.  The loop sends one request for every line, read before the first
    "exit", from which [Sscan] gets an integer, and no other request. *)
Theorem loop_request_count
    (Sscan : string -> option Z)
    (PostA : string -> string -> string -> reply A.result)
    (PostB : string -> string -> string -> reply B.result)
    (port : string) (lines : list scanned) :
  length (List.filter is_request (fst (A.loop Sscan PostA lines)))
  = length (List.filter (scans Sscan) (before_exit lines)) /\
  length (List.filter is_request (fst (B.loop Sscan PostB port lines)))
  = length (List.filter (scans Sscan) (before_exit lines)).
Proof.
  induction lines as [|line rest [IHA IHB]]; [split; reflexivity|].
  destruct (decide (line = Scanned "exit")) as [->|Hne]; [split; reflexivity|].
  rewrite A_loop_cons, B_loop_cons by assumption. simpl fst.
  rewrite !List.filter_app, !length_app, IHA, IHB.
  rewrite A_turn_requests, B_turn_requests by assumption.
  destruct line as [|input]; simpl.
  - split; reflexivity.
  - destruct (decide (input = "exit"%string)) as [->|_]; [contradiction|].
    simpl. destruct (Sscan input); split; reflexivity.
Qed.

(** X11.  Input composes: as long as no "exit" was read, the output so far
    ends with the open prompt, and reading further lines continues from
    exactly there. *)
Theorem loop_app
    (Sscan : string -> option Z)
    (PostA : string -> string -> string -> reply A.result)
    (PostB : string -> string -> string -> reply B.result)
    (port : string) (l1 l2 : list scanned) :
  Scanned "exit" ∉ l1 ->
  (exists evs,
      A.loop Sscan PostA l1 = (evs ++ [Stdout "ID: "], Continue) /\
      A.loop Sscan PostA (l1 ++ l2)
      = (evs ++ fst (A.loop Sscan PostA l2), snd (A.loop Sscan PostA l2))) /\
  (exists evs,
      B.loop Sscan PostB port l1 = (evs ++ [Stdout "ID: "], Continue) /\
      B.loop Sscan PostB port (l1 ++ l2)
      = (evs ++ fst (B.loop Sscan PostB port l2),
         snd (B.loop Sscan PostB port l2))).
Proof.
  induction l1 as [|line l1 IH]; intros Hno.
  - split; exists []; (split; [reflexivity|]); simpl.
    + destruct (A.loop Sscan PostA l2); reflexivity.
    + destruct (B.loop Sscan PostB port l2); reflexivity.
  - apply not_elem_of_cons in Hno as [Hne Hno].
    assert (Hne' : line <> Scanned "exit") by congruence.
    destruct (IH Hno) as [(ea & EA1 & EA2) (eb & EB1 & EB2)].
    rewrite <- !app_comm_cons, !A_loop_cons, !B_loop_cons by assumption.
    rewrite EA1, EA2, EB1, EB2. cbn [fst snd].
    split.
    + exists (fst (A.turn Sscan PostA line) ++ ea).
      rewrite <- !app_assoc. split; reflexivity.
    + exists (fst (B.turn Sscan PostB port line) ++ eb).
      rewrite <- !app_assoc. split; reflexivity.
Qed.

Lemma loop_app_witness :
  exists evs,
    A.loop Sscan_int (fun _ _ _ => PostFailed "refused"%string)
           [Scanned "abc"]
    = (evs ++ [Stdout "ID: "], Continue) /\
    A.loop Sscan_int (fun _ _ _ => PostFailed "refused"%string)
           ([Scanned "abc"] ++ [Scanned "7"; Scanned "exit"])
    = (evs ++ fst (A.loop Sscan_int (fun _ _ _ => PostFailed "refused"%string)
                     [Scanned "7"; Scanned "exit"]),
       snd (A.loop Sscan_int (fun _ _ _ => PostFailed "refused"%string)
              [Scanned "7"; Scanned "exit"])).
Proof.
  destruct (loop_app Sscan_int (fun _ _ _ => PostFailed "refused"%string)
              (fun _ _ _ => PostFailed "refused"%string) "8080"
              [Scanned "abc"] [Scanned "7"; Scanned "exit"]) as [HA _].
  - intros H. apply elem_of_cons in H as [H|H]; [discriminate | inversion H].
  - exact HA.
Defined.

(** ** The run of [main] *)

Lemma A_loop_no_shutdown
    (Sscan : string -> option Z)
    (PostA : string -> string -> string -> reply A.result)
    (lines : list scanned) :
  List.filter is_shutdown (fst (A.loop Sscan PostA lines)) = [].
Proof.
  induction lines as [|line rest IH]; [reflexivity|].
  cbn [A.loop]. pose proof (A_turn_no_shutdown Sscan PostA line) as Ht.
  destruct (A.turn Sscan PostA line) as [evs [|]]; cbn [fst] in *.
  - destruct (A.loop Sscan PostA rest) as [evs' c]; cbn [fst] in *.
    rewrite List.filter_app, Ht, IH. reflexivity.
  - exact Ht.
Qed.

Lemma B_loop_no_shutdown
    (Sscan : string -> option Z)
    (PostB : string -> string -> string -> reply B.result)
    (port : string) (lines : list scanned) :
  List.filter is_shutdown (fst (B.loop Sscan PostB port lines)) = [].
Proof.
  induction lines as [|line rest IH]; [reflexivity|].
  cbn [B.loop]. pose proof (B_turn_no_shutdown Sscan PostB port line) as Ht.
  destruct (B.turn Sscan PostB port line) as [evs [|]]; cbn [fst] in *.
  - destruct (B.loop Sscan PostB port rest) as [evs' c]; cbn [fst] in *.
    rewrite List.filter_app, Ht, IH. reflexivity.
  - exact Ht.
Qed.

(** Where the main goroutine stands: in [Scanln] as long as no "exit" was
    read, and through the shutdown once it was. *)
Lemma foreground_status
    (Sscan : string -> option Z)
    (PostA : string -> string -> string -> reply A.result)
    (PostB : string -> string -> string -> reply B.result)
    (Shutdown : Z -> option error)
    (env : gmap string string) (lines : list scanned) :
  let final :=
    if decide (Scanned "exit" ∈ lines) then
      Exited (match Shutdown (5 * time.Second) with Some _ => 1 | None => 0 end)
    else AwaitingInput in
  snd (A.foreground Sscan PostA Shutdown env lines) = final /\
  snd (B.foreground Sscan PostB Shutdown env lines) = final.
Proof.
  intros final. subst final.
  destruct (loop_breaks_iff_exit Sscan PostA PostB (B.port env) lines)
    as [HA HB].
  unfold A.foreground, B.foreground, A.shutdown, B.shutdown.
  destruct (A.loop Sscan PostA lines) as [ea ca].
  destruct (B.loop Sscan PostB (B.port env) lines) as [eb cb].
  cbn [snd] in HA, HB.
  destruct (decide (Scanned "exit" ∈ lines)) as [Hin|Hout].
  - apply HA in Hin as ->. rewrite (proj2 HB) by (apply HA; reflexivity).
    destruct (Shutdown (5 * time.Second)); split; reflexivity.
  - destruct ca; [|exfalso; apply Hout, HA; reflexivity].
    destruct cb; [|exfalso; apply Hout, HB; reflexivity].
    split; reflexivity.
Qed.

(** A failing listener ends the process with status 1, unless the main
    goroutine had ended it before. *)
Lemma A_main_failed
    (Sscan : string -> option Z)
    (PostA : string -> string -> string -> reply A.result)
    (Shutdown : Z -> option error)
    (err : error) (after : nat)
    (env : gmap string string) (lines : list scanned) :
  snd (A.main Sscan PostA Shutdown (ServeFailed err) after env lines)
  = Exited 1 \/
  (exists c, snd (A.foreground Sscan PostA Shutdown env lines) = Exited c /\
             snd (A.main Sscan PostA Shutdown (ServeFailed err) after env lines)
             = Exited c).
Proof.
  unfold A.main.
  destruct (A.foreground Sscan PostA Shutdown env lines) as [evs st].
  cbn [A.listener snd]. destruct evs as [|e rest]; [left; reflexivity|].
  destruct (after <? length rest)%nat; [left; reflexivity|].
  destruct st; cbn [snd]; eauto.
Qed.

Lemma B_main_failed
    (Sscan : string -> option Z)
    (PostB : string -> string -> string -> reply B.result)
    (Shutdown : Z -> option error)
    (err : error) (after : nat)
    (env : gmap string string) (lines : list scanned) :
  snd (B.main Sscan PostB Shutdown (ServeFailed err) after env lines)
  = Exited 1 \/
  (exists c, snd (B.foreground Sscan PostB Shutdown env lines) = Exited c /\
             snd (B.main Sscan PostB Shutdown (ServeFailed err) after env lines)
             = Exited c).
Proof.
  unfold B.main.
  destruct (B.foreground Sscan PostB Shutdown env lines) as [evs st].
  cbn [B.listener snd]. destruct evs as [|e rest]; [left; reflexivity|].
  destruct (after <? length rest)%nat; [left; reflexivity|].
  destruct st; cbn [snd]; eauto.
Qed.

(** X12.  Where a run stands.  While the listener serves, the process is
    in [Scanln] as long as no "exit" was read, and has exited once it was,
    with status 1 if [server.Shutdown] returned an error and status 0
    otherwise.  When [ListenAndServe] fails, the process exits with
    status 1, unless "exit" was read and the shutdown ended it first.  On
    a closed input without "exit" the loop never ends: every further
    [Scanln] fails at once. *)
Theorem main_status
    (Sscan : string -> option Z)
    (PostA : string -> string -> string -> reply A.result)
    (PostB : string -> string -> string -> reply B.result)
    (Shutdown : Z -> option error)
    (after : nat)
    (env : gmap string string) (lines : list scanned) :
  let exited :=
    Exited (match Shutdown (5 * time.Second) with Some _ => 1 | None => 0 end) in
  let final :=
    if decide (Scanned "exit" ∈ lines) then exited else AwaitingInput in
  (* the listener serves *)
  (snd (A.main Sscan PostA Shutdown ErrServerClosed after env lines) = final /\
   snd (B.main Sscan PostB Shutdown ErrServerClosed after env lines) = final) /\
  (* the listener fails *)
  (forall err : error,
      let failedA :=
        snd (A.main Sscan PostA Shutdown (ServeFailed err) after env lines) in
      let failedB :=
        snd (B.main Sscan PostB Shutdown (ServeFailed err) after env lines) in
      (Scanned "exit" ∉ lines -> failedA = Exited 1 /\ failedB = Exited 1) /\
      (failedA = Exited 1 \/ failedA = exited) /\
      (failedB = Exited 1 \/ failedB = exited)) /\
  (* the input, character by character *)
  (forall stdin : string,
      Scanned "exit" ∉ lines ->
      (stdin_lines true stdin = (lines, EndOfFile) ->
       (snd <$> A.run Sscan PostA Shutdown ErrServerClosed after env true stdin)
       = Some Spinning /\
       (snd <$> B.run Sscan PostB Shutdown ErrServerClosed after env true stdin)
       = Some Spinning) /\
      (stdin_lines false stdin = (lines, Waiting) ->
       (snd <$> A.run Sscan PostA Shutdown ErrServerClosed after env false stdin)
       = Some AwaitingInput /\
       (snd <$> B.run Sscan PostB Shutdown ErrServerClosed after env false stdin)
       = Some AwaitingInput)).
Proof.
  intros exited final.
  destruct (foreground_status Sscan PostA PostB Shutdown env lines) as [FA FB].
  fold exited in FA, FB. fold final in FA, FB.
  split; [|split].
  - rewrite A_main_serving, B_main_serving. split; assumption.
  - intros err failedA failedB. subst failedA failedB.
    pose proof (A_main_failed Sscan PostA Shutdown err after env lines) as HA.
    pose proof (B_main_failed Sscan PostB Shutdown err after env lines) as HB.
    rewrite FA in HA. rewrite FB in HB. subst final.
    destruct (decide (Scanned "exit" ∈ lines)) as [Hin|Hout].
    + split; [intros H; contradiction|].
      split.
      * destruct HA as [HA|(c & Ec & HA)]; [left; exact HA|].
        right. rewrite HA, <- Ec. reflexivity.
      * destruct HB as [HB|(c & Ec & HB)]; [left; exact HB|].
        right. rewrite HB, <- Ec. reflexivity.
    + assert (EA : snd (A.main Sscan PostA Shutdown (ServeFailed err) after env
                          lines) = Exited 1).
      { destruct HA as [HA|(c & Ec & _)]; [exact HA | discriminate]. }
      assert (EB : snd (B.main Sscan PostB Shutdown (ServeFailed err) after env
                          lines) = Exited 1).
      { destruct HB as [HB|(c & Ec & _)]; [exact HB | discriminate]. }
      split; [intros _; split; assumption|].
      split; left; assumption.
  - intros stdin Hout. subst final.
    destruct (decide (Scanned "exit" ∈ lines)) as [Hin|_]; [contradiction|].
    split; intros E; unfold A.run, B.run; rewrite E;
      rewrite A_main_serving, B_main_serving.
    + destruct (A.foreground Sscan PostA Shutdown env lines) as [ea sa].
      destruct (B.foreground Sscan PostB Shutdown env lines) as [eb sb].
      cbn [snd] in FA, FB. subst sa sb. split; reflexivity.
    + destruct (A.foreground Sscan PostA Shutdown env lines) as [ea sa].
      destruct (B.foreground Sscan PostB Shutdown env lines) as [eb sb].
      cbn [snd] in FA, FB. subst sa sb. split; reflexivity.
Qed.

(** The failed bind: with nothing typed, the process is gone with status 1;
    and a closed input makes the loop spin. *)
Example main_status_samples :
  snd (A.main Sscan_int (fun _ _ _ => PostFailed "refused"%string)
         (fun _ => None) (ServeFailed "unknown port") 0
         ({[ "PORT"%string := "abc"%string ]} : gmap string string) [])
  = Exited 1 /\
  (snd <$> A.run Sscan_int (fun _ _ _ => PostFailed "refused"%string)
             (fun _ => None) ErrServerClosed 0
             (∅ : gmap string string) true ("7" +:+ newline))
  = Some Spinning.
Proof. split; vm_compute; reflexivity. Qed.

(** X13.  [server.Shutdown] is called once when "exit" was read and never
    otherwise, always with the timeout of five seconds; and the events of a
    run split into a part without that call followed by a part without any
    request: nothing is sent to the gateway once the shutdown has begun. *)
Theorem main_shutdown_once
    (Sscan : string -> option Z)
    (PostA : string -> string -> string -> reply A.result)
    (PostB : string -> string -> string -> reply B.result)
    (Shutdown : Z -> option error)
    (steps : nat)
    (env : gmap string string) (lines : list scanned) :
  let calls :=
    if decide (Scanned "exit" ∈ lines) then [ServerShutdown 5000000000]
    else [] in
  (List.filter is_shutdown (fst (A.main Sscan PostA Shutdown ErrServerClosed steps env lines)) = calls /\
   exists before after,
     fst (A.main Sscan PostA Shutdown ErrServerClosed steps env lines) = before ++ after /\
     List.filter is_shutdown before = [] /\
     List.filter is_request after = []) /\
  (List.filter is_shutdown (fst (B.main Sscan PostB Shutdown ErrServerClosed steps env lines)) = calls /\
   exists before after,
     fst (B.main Sscan PostB Shutdown ErrServerClosed steps env lines) = before ++ after /\
     List.filter is_shutdown before = [] /\
     List.filter is_request after = []).
Proof.
  intros calls. subst calls.
  rewrite A_main_serving, B_main_serving.
  destruct (loop_breaks_iff_exit Sscan PostA PostB (B.port env) lines)
    as [HA HB].
  pose proof (A_loop_no_shutdown Sscan PostA lines) as NA.
  pose proof (B_loop_no_shutdown Sscan PostB (B.port env) lines) as NB.
  unfold A.foreground, B.foreground, A.shutdown, B.shutdown.
  destruct (A.loop Sscan PostA lines) as [ea ca].
  destruct (B.loop Sscan PostB (B.port env) lines) as [eb cb].
  cbn [fst snd] in *.
  destruct (decide (Scanned "exit" ∈ lines)) as [Hin|Hout].
  - rewrite (proj2 HA Hin), (proj2 HB Hin).
    destruct (Shutdown (5 * time.Second)) as [err|]; cbn [fst].
    + split.
      * split.
        { rewrite !List.filter_app, NA. reflexivity. }
        eexists (_ ++ ea), _. split; [rewrite <- app_assoc; reflexivity|].
        rewrite List.filter_app, NA. split; reflexivity.
      * split.
        { rewrite !List.filter_app, NB. reflexivity. }
        eexists (_ ++ eb), _. split; [rewrite <- app_assoc; reflexivity|].
        rewrite List.filter_app, NB. split; reflexivity.
    + split.
      * split.
        { rewrite !List.filter_app, NA. reflexivity. }
        eexists (_ ++ ea), _. split; [rewrite <- app_assoc; reflexivity|].
        rewrite List.filter_app, NA. split; reflexivity.
      * split.
        { rewrite !List.filter_app, NB. reflexivity. }
        eexists (_ ++ eb), _. split; [rewrite <- app_assoc; reflexivity|].
        rewrite List.filter_app, NB. split; reflexivity.
  - destruct ca; [|exfalso; apply Hout, HA; reflexivity].
    destruct cb; [|exfalso; apply Hout, HB; reflexivity].
    cbn [fst]. split.
    + split.
      { rewrite List.filter_app, NA. reflexivity. }
      eexists _, []. split; [rewrite app_nil_r; reflexivity|].
      rewrite List.filter_app, NA. split; reflexivity.
    + split.
      { rewrite List.filter_app, NB. reflexivity. }
      eexists _, []. split; [rewrite app_nil_r; reflexivity|].
      rewrite List.filter_app, NB. split; reflexivity.
Qed.

(** ** The port and the addresses built from it *)

(** X14.  The port is never the empty text, whatever the environment, so
    the server is never started on the bare address ":". *)
Theorem port_never_empty (env : gmap string string) :
  A.port env <> EmptyString /\ B.port env <> EmptyString /\
  A.Addr (A.port env) <> ":"%string /\ B.Addr (B.port env) <> ":"%string.
Proof.
  assert (H : A.port env <> EmptyString).
  { unfold A.port. destruct (decide _) as [_|Hne]; [discriminate|exact Hne]. }
  assert (HAddr : (":" +:+ A.port env)%string <> ":"%string).
  { intros E. apply H.
    change ":"%string with (":" +:+ EmptyString)%string in E at 2.
    apply String.app_inj in E. exact E. }
  repeat split; assumption.
Qed.

(** X15.  The address variant A posts to is the address of the port served
    exactly when PORT is unset, empty or "8080". *)
Theorem A_postURL_matches_iff (env : gmap string string) :
  A.postURL = ("http://localhost:" +:+ A.port env +:+ "/")%string <->
  Getenv env "PORT" = EmptyString \/ Getenv env "PORT" = "8080"%string.
Proof.
  split.
  - intros E.
    change A.postURL with ("http://localhost:" +:+ "8080" +:+ "/")%string in E.
    apply String.app_inj in E. apply string_app_inj_r in E.
    destruct (decide (Getenv env "PORT" = EmptyString)) as [H0|H0]; [left; exact H0|].
    right. rewrite <- (port_set env H0). symmetry. exact E.
  - intros [H|H].
    + rewrite (port_unset env H). reflexivity.
    + assert (Hne : Getenv env "PORT" <> EmptyString) by (rewrite H; discriminate).
      rewrite (port_set env Hne), H. reflexivity.
Qed.

(** X16.  The listener of variant A announces port 8080 whatever port it
    serves, and any failure to serve is fatal with status 1 while a closed
    server is not; its log agrees with that of variant B exactly when the
    port is "8080". *)
Theorem listener_announcement (port : string) (served : serve_error) :
  A.listener port served = A.listener "8080" served /\
  (A.listener port served = B.listener port served <-> port = "8080"%string) /\
  (snd (A.listener port served) = snd (B.listener port served)) /\
  (snd (B.listener port served) = Some 1 <-> served <> ErrServerClosed).
Proof.
  split; [reflexivity|]. split; [|split].
  - split.
    + intros E.
      apply (f_equal (fun r => match fst r with
                               | Log s :: _ => s
                               | _ => EmptyString
                               end)) in E.
      unfold A.listener, B.listener, Fmt.Sprintf_s in E.
      destruct served; cbn [fst app] in E;
        change "GraphQL сервер запущен на http://localhost:8080"%string
          with ("GraphQL сервер запущен на http://localhost:" +:+ "8080" +:+ EmptyString)%string
          in E;
        apply String.app_inj in E; apply string_app_inj_r in E;
        symmetry; exact E.
    + intros ->. destruct served; reflexivity.
  - destruct served; reflexivity.
  - destruct served; simpl; split; try congruence; try discriminate.
Qed.

(** ** The schema is closed *)

(** X17.  The schema declares nothing besides what the claims name: the
    root query has the field [greeting] and no other, [greeting] takes the
    argument [id] and no other, and [Greeting] has the fields [text] and
    [flowers] and no other. *)
Theorem schema_closed (name : string) :
  (is_Some (graphql.field_of A.rootQuery name) <-> name = "greeting"%string) /\
  (is_Some (graphql.field_of B.rootQuery name) <-> name = "greeting"%string) /\
  (is_Some (graphql.arg_of A.greetingField name) <-> name = "id"%string) /\
  (is_Some (graphql.arg_of B.greetingField name) <-> name = "id"%string) /\
  (is_Some (graphql.field_of B.greetingType name)
   <-> name = "text"%string \/ name = "flowers"%string).
Proof.
  unfold graphql.field_of, graphql.arg_of, A.rootQuery, B.rootQuery,
    A.greetingField, B.greetingField, B.greetingType, graphql.Args'.
  cbn [List.find fst snd].
  destruct (String.eqb_spec "greeting" name) as [Hg|Hg];
    destruct (String.eqb_spec "id" name) as [Hi|Hi];
    destruct (String.eqb_spec "text" name) as [Ht|Ht];
    destruct (String.eqb_spec "flowers" name) as [Hf|Hf];
    cbn [fmap option_fmap option_map];
    repeat split;
    try (intros _; (congruence || eauto); fail);
    try (intros H; apply is_Some_None in H; contradiction);
    try (intros H; congruence);
    try (intros [H|H]; congruence);
    try (eexists; reflexivity).
Qed.

(** ** The requests of a run, and the port they go to *)

Section Requests.

Variable Sscan : string -> option Z.
Variable PostA : string -> string -> string -> reply A.result.
Variable PostB : string -> string -> string -> reply B.result.
Variable Shutdown : Z -> option error.

(** The requests of the loop are one per identifier read, in order. *)
Lemma A_loop_requests (lines : list scanned) :
  List.filter is_request (fst (A.loop Sscan PostA lines))
  = map (fun id => HttpPost A.postURL "application/json" (A.query id))
        (scanned_ids Sscan lines).
Proof.
  induction lines as [|line rest IH]; [reflexivity|].
  destruct (decide (line = Scanned "exit")) as [->|Hne]; [reflexivity|].
  rewrite A_loop_cons by assumption. cbn [fst].
  rewrite List.filter_app, IH, A_turn_requests by assumption.
  destruct line as [|input]; cbn [scanned_ids]; [reflexivity|].
  destruct (decide (input = "exit"%string)) as [->|_]; [contradiction|].
  destruct (Sscan input); reflexivity.
Qed.

Lemma B_loop_requests (port : string) (lines : list scanned) :
  List.filter is_request (fst (B.loop Sscan PostB port lines))
  = map (fun id => HttpPost (B.postURL port) "application/json" (B.query id))
        (scanned_ids Sscan lines).
Proof.
  induction lines as [|line rest IH]; [reflexivity|].
  destruct (decide (line = Scanned "exit")) as [->|Hne]; [reflexivity|].
  rewrite B_loop_cons by assumption. cbn [fst].
  rewrite List.filter_app, IH, B_turn_requests by assumption.
  destruct line as [|input]; cbn [scanned_ids]; [reflexivity|].
  destruct (decide (input = "exit"%string)) as [->|_]; [contradiction|].
  destruct (Sscan input); reflexivity.
Qed.

(** Outside the loop the main goroutine sends nothing. *)
Lemma A_foreground_requests (env : gmap string string) (lines : list scanned) :
  List.filter is_request (fst (A.foreground Sscan PostA Shutdown env lines))
  = List.filter is_request (fst (A.loop Sscan PostA lines)).
Proof.
  unfold A.foreground, A.shutdown.
  destruct (A.loop Sscan PostA lines) as [evs [|]]; cbn [fst].
  - reflexivity.
  - destruct (Shutdown (5 * time.Second)); cbn [fst];
      rewrite !List.filter_app; cbn [List.filter is_request Println];
      rewrite app_nil_r; reflexivity.
Qed.

Lemma B_foreground_requests (env : gmap string string) (lines : list scanned) :
  List.filter is_request (fst (B.foreground Sscan PostB Shutdown env lines))
  = List.filter is_request (fst (B.loop Sscan PostB (B.port env) lines)).
Proof.
  unfold B.foreground, B.shutdown.
  destruct (B.loop Sscan PostB (B.port env) lines) as [evs [|]]; cbn [fst].
  - reflexivity.
  - destruct (Shutdown (5 * time.Second)); cbn [fst];
      rewrite !List.filter_app; cbn [List.filter is_request Println];
      rewrite app_nil_r; reflexivity.
Qed.

End Requests.

(** A port text that [net] reads as a number is not empty, so it is the
    port of the server. *)
Lemma port_of_number (env : gmap string string) (n : Z) :
  Net.port_number (Getenv env "PORT") = Some n ->
  A.port env = Getenv env "PORT".
Proof.
  intros H. apply port_set. intros E. rewrite E in H. discriminate.
Qed.

(** C5.  In variant A every request of the loop goes to the constant
    "http://localhost:8080/", one request for every identifier read,
    whatever PORT holds, while the server is started on ":" followed by
    the port.  So when PORT names a port number other than 8080, the
    requests go to port 8080 and the server listens on another port.
    Variant B puts the port into the address instead. *)
Theorem C5_variant_A_posts_to_8080
    (Sscan : string -> option Z)
    (PostA : string -> string -> string -> reply A.result)
    (PostB : string -> string -> string -> reply B.result)
    (Shutdown : Z -> option error)
    (served : serve_error) (after : nat)
    (env : gmap string string) (lines : list scanned) :
  (* variant A *)
  (Forall (posts_to "http://localhost:8080/")
          (fst (A.main Sscan PostA Shutdown served after env lines)) /\
   List.filter is_request
     (fst (A.main Sscan PostA Shutdown ErrServerClosed after env lines))
   = map (fun id =>
            HttpPost "http://localhost:8080/" "application/json" (A.query id))
         (scanned_ids Sscan lines) /\
   head (fst (A.main Sscan PostA Shutdown served after env lines))
   = Some (GoListenAndServe (":" +:+ A.port env))) /\
  (* variant B *)
  (Forall (posts_to ("http://localhost:" +:+ B.port env +:+ "/"))
          (fst (B.main Sscan PostB Shutdown served after env lines)) /\
   List.filter is_request
     (fst (B.main Sscan PostB Shutdown ErrServerClosed after env lines))
   = map (fun id =>
            HttpPost ("http://localhost:" +:+ B.port env +:+ "/")
                     "application/json" (B.query id))
         (scanned_ids Sscan lines) /\
   head (fst (B.main Sscan PostB Shutdown served after env lines))
   = Some (GoListenAndServe (":" +:+ B.port env))) /\
  (* the port served and the port addressed, in variant A *)
  (forall n : Z,
      Net.port_number (Getenv env "PORT") = Some n ->
      Net.listen_port (":" +:+ A.port env) = Some n /\
      Net.dial_port "http://localhost:8080/" = Some 8080 /\
      (n <> 8080 ->
       Net.dial_port "http://localhost:8080/"
       <> Net.listen_port (":" +:+ A.port env))).
Proof.
  split; [|split].
  - split; [apply A_main_posts_to|]. split; [|apply A_main_head].
    rewrite A_main_serving, A_foreground_requests. apply A_loop_requests.
  - split; [apply B_main_posts_to|]. split; [|apply B_main_head].
    rewrite B_main_serving, B_foreground_requests. apply B_loop_requests.
  - intros n Hn.
    assert (E : Net.listen_port (":" +:+ A.port env) = Some n).
    { rewrite (port_of_number env n Hn).
      change (Net.listen_port (":" +:+ Getenv env "PORT"))
        with (Net.port_number (Getenv env "PORT")).
      exact Hn. }
    split; [exact E|]. split; [vm_compute; reflexivity|].
    intros Hne. rewrite E.
    change (Net.dial_port "http://localhost:8080/") with (Some 8080).
    congruence.
Qed.

Lemma C5_variant_A_posts_to_8080_witness :
  List.filter is_request
    (fst (A.main Sscan_int (fun _ _ _ => PostFailed "refused"%string)
            (fun _ => None) ErrServerClosed 0
            ({[ "PORT"%string := "9090"%string ]} : gmap string string)
            [Scanned "3"]))
  = [HttpPost "http://localhost:8080/" "application/json" (A.query 3)] /\
  Net.listen_port
    (":" +:+ A.port ({[ "PORT"%string := "9090"%string ]} : gmap string string))
  = Some 9090 /\
  Net.dial_port "http://localhost:8080/" = Some 8080.
Proof.
  pose proof (C5_variant_A_posts_to_8080
                Sscan_int (fun _ _ _ => PostFailed "refused"%string)
                (fun _ _ _ => PostFailed "refused"%string) (fun _ => None)
                ErrServerClosed 0
                ({[ "PORT"%string := "9090"%string ]} : gmap string string)
                [Scanned "3"]) as ((_ & HA & _) & _ & HP).
  destruct (HP 9090) as (HL & HD & _); [vm_compute; reflexivity|].
  split; [exact HA | split; [exact HL | exact HD]].
Defined.

(** A run of variant A with PORT=9090 and the line "3": the listener is
    started on ":9090", the request goes to port 8080.  With PORT=08080 the
    server listens on 8080 all the same. *)
Example A_run_with_port_9090 :
  List.filter (fun e => match e with
                        | GoListenAndServe _ | HttpPost _ _ _ => true
                        | _ => false
                        end)
         (fst (A.main Sscan_int (fun _ _ _ => PostFailed "refused"%string)
                 (fun _ => None) ErrServerClosed 0
                 ({[ "PORT"%string := "9090"%string ]} : gmap string string)
                 [Scanned "3"]))
  = [ GoListenAndServe ":9090";
      HttpPost "http://localhost:8080/" "application/json" (A.query 3) ] /\
  Net.listen_port
    (A.Addr (A.port ({[ "PORT"%string := "08080"%string ]} : gmap string string)))
  = Net.dial_port A.postURL.
Proof. split; vm_compute; reflexivity. Qed.
